(** * The batch runner of Tasks/tasks.py, embedded and verified

    [LLMTask.run] fills a prompt template, calls a text-generation client
    batch after batch, parses every response line by line into records and
    stops at a target count or a batch ceiling.

    Part I embeds the Python code: the string primitives it relies on
    ([str.strip], [str.split], [str.splitlines], the three regular
    expressions), the placeholder templating, the line parsers and the batch
    loop.  Part II states and proves the properties of the specification.

    Python strings are sequences of Unicode code points and are modelled as
    lists of code points.  Python integers are unbounded and are modelled
    by [Z]. *)

From Stdlib Require Import String Ascii.
From Stdlib Require Import List ZArith NArith Lia Bool QArith_base DecimalString.
Import ListNotations.
Local Open Scope Z_scope.

(* ================================================================= *)
(** * Part I: the embedding *)
(* ================================================================= *)

(** ** Python strings *)

Module Py.

Definition char := N.
Definition str := list char.

(** An ASCII literal as a Python string (one code point per character). *)
Definition lit (s : string) : str := map N_of_ascii (list_ascii_of_string s).

Fixpoint str_eqb (a b : str) : bool :=
  match a, b with
  | [], [] => true
  | x :: a', y :: b' => N.eqb x y && str_eqb a' b'
  | _, _ => false
  end.

Definition mem (c : char) (cs : str) : bool := existsb (N.eqb c) cs.

Definition between (lo hi c : N) : bool := (N.leb lo c && N.leb c hi)%bool.

(** [str.isspace] on one code point; it is also the regex class [\s] and the
    set removed by [str.strip()].  The set is the one CPython hard-codes
    ([_PyUnicode_IsWhitespace]). *)
Definition isspace (c : char) : bool :=
  (between 9 13 c || between 28 32 c || mem c [133; 160; 5760]
   || between 8192 8202 c || mem c [8232; 8233; 8239; 8287; 12288])%N%bool.

(** The line boundaries of [str.splitlines]. *)
Definition is_linebreak (c : char) : bool :=
  (between 10 13 c || between 28 30 c || mem c [133; 8232; 8233])%N%bool.

Fixpoint dropwhile {A} (p : A -> bool) (l : list A) : list A :=
  match l with
  | [] => []
  | x :: l' => if p x then dropwhile p l' else l
  end.

Fixpoint takewhile {A} (p : A -> bool) (l : list A) : list A :=
  match l with
  | [] => []
  | x :: l' => if p x then x :: takewhile p l' else []
  end.

Definition lstrip_by (p : char -> bool) (s : str) : str := dropwhile p s.
Definition rstrip_by (p : char -> bool) (s : str) : str := rev (dropwhile p (rev s)).
Definition strip_by (p : char -> bool) (s : str) : str := rstrip_by p (lstrip_by p s).

(** [s.strip()] *)
Definition strip (s : str) : str := strip_by isspace s.

(** [s.strip(chars)] *)
Definition strip_chars (chars : str) (s : str) : str :=
  strip_by (fun c => mem c chars) s.

(** [s.startswith(prefix)] *)
Fixpoint startswith (prefix s : str) : bool :=
  match prefix, s with
  | [], _ => true
  | p :: prefix', c :: s' => N.eqb p c && startswith prefix' s'
  | _ :: _, [] => false
  end.

(** [sub in s] *)
Fixpoint contains (sub s : str) : bool :=
  if startswith sub s then true
  else match s with
       | [] => false
       | _ :: s' => contains sub s'
       end.

(** [s.split(sep, 1)] for a non-empty [sep] that occurs in [s]: the text
    before the first occurrence and the text after it.  (When [sep] does
    not occur, Python returns the one-element list [[s]]; the code only
    splits after testing [sep in s].) *)
Fixpoint split1 (sep s : str) : str * str :=
  if startswith sep s then ([], skipn (List.length sep) s)
  else match s with
       | [] => ([], [])
       | c :: s' => let (l, r) := split1 sep s' in (c :: l, r)
       end.

(** [s.splitlines()]: boundaries are not kept, [\r\n] is one boundary, and
    there is no empty last line. [cur] is the current line, reversed. *)
Fixpoint splitlines_from (cur : str) (s : str) : list str :=
  match s with
  | [] => match cur with [] => [] | _ => [rev cur] end
  | c :: s' =>
      if is_linebreak c then
        rev cur ::
          (if N.eqb c 13
           then match s' with
                | d :: s'' => if N.eqb d 10 then splitlines_from [] s''
                              else splitlines_from [] s'
                | [] => splitlines_from [] s'
                end
           else splitlines_from [] s')
      else splitlines_from (c :: cur) s'
  end.

Definition splitlines (s : str) : list str := splitlines_from [] s.

(** [l[:n]] for a list [l] and an integer [n]: a negative [n] counts from
    the end. *)
Definition slice_to {A} (l : list A) (n : Z) : list A :=
  if 0 <=? n then firstn (Z.to_nat n) l
  else firstn (List.length l - Z.to_nat (- n)) l.

(** [len(l)] *)
Definition len {A} (l : list A) : Z := Z.of_nat (List.length l).

(** [str(n)] for an integer. *)
Definition str_of_int (n : Z) : str := lit (NilZero.string_of_int (Z.to_int n)).

(** The ASCII block of the character tables. *)
Definition ascii_isdigit (c : char) : bool := between 48 57 c.
Definition ascii_isalnum (c : char) : bool :=
  (between 48 57 c || between 65 90 c || between 97 122 c)%bool.
Definition ascii_upper (c : char) : char :=
  if between 97 122 c then (c - 32)%N else c.
Definition ascii_lower (c : char) : char :=
  if between 65 90 c then (c + 32)%N else c.
Definition is_ascii (c : char) : Prop := (c < 128)%N.

(** The parts of the Unicode character database the code reaches through
    [\w], [\d], [str.upper] and [str.lower].  The tables themselves belong
    to the Python runtime and change with its Unicode version; what is
    fixed, and all the proofs use, is their ASCII block and the fact that
    only ASCII letters upper-case to the word DONE. *)
Class UnicodeData := {
  isalnum : char -> bool;
  isdecimal : char -> bool;
  upper : str -> str;
  lower : str -> str;
  isalnum_ascii : forall c, is_ascii c -> isalnum c = ascii_isalnum c;
  isdecimal_ascii : forall c, is_ascii c -> isdecimal c = ascii_isdigit c;
  upper_ascii : forall s, Forall is_ascii s -> upper s = map ascii_upper s;
  lower_ascii : forall s, Forall is_ascii s -> lower s = map ascii_lower s;
  upper_DONE : forall s, upper s = lit "DONE" -> Forall is_ascii s
}.

(** The regex class [\w] on one code point. *)
Definition isword `{UnicodeData} (c : char) : bool := (isalnum c || N.eqb c 95)%bool.

End Py.

Import Py.

Example lit_abc : lit "a: b" = [97; 58; 32; 98]%N.
Proof. reflexivity. Qed.

(** ** Python values and dictionaries *)

(** The scalars a placeholder map or a record holds. *)
Inductive value :=
| VNone
| VBool (b : bool)
| VInt (n : Z)
| VStr (s : str).

(** [str(v)] *)
Definition py_str (v : value) : str :=
  match v with
  | VNone => lit "None"
  | VBool true => lit "True"
  | VBool false => lit "False"
  | VInt n => str_of_int n
  | VStr s => s
  end.

(** Truth value of [v], as [if v] and [v or w] test it. *)
Definition truthy (v : value) : bool :=
  match v with
  | VNone => false
  | VBool b => b
  | VInt n => negb (n =? 0)
  | VStr [] => false
  | VStr (_ :: _) => true
  end.

(** [a or b] *)
Definition py_or (a b : value) : value := if truthy a then a else b.

(** A [Dict[str, Any]]: the entries in insertion order, keys distinct. *)
Definition dict := list (str * value).

Fixpoint dict_find (k : str) (d : dict) : option value :=
  match d with
  | [] => None
  | (k', v) :: d' => if str_eqb k k' then Some v else dict_find k d'
  end.

(** [k in d] *)
Definition dict_mem (k : str) (d : dict) : bool :=
  match dict_find k d with Some _ => true | None => false end.

(** [d.get(k, default)] *)
Definition dict_get (k : str) (default : value) (d : dict) : value :=
  match dict_find k d with Some v => v | None => default end.

(** [list(d.keys())] *)
Definition dict_keys (d : dict) : list str := map fst d.

(** A parsed record is a dictionary too. *)
Definition record := dict.

(** ** Exceptions *)

(** The exceptions of the run.  [ValueError] carries the two lists its
    message is formatted from: the markers without a value and the names
    that were supplied.  [Exception] stands for whatever the generation
    client or the progress callback raise. *)
Inductive exn :=
| FileNotFoundError (task_folder prompt_type : str)
| ValueError (missing provided : list str)
| Exception (msg : str).

Inductive outcome (A : Type) :=
| Return (a : A)
| Raise (e : exn).
Arguments Return {A} a.
Arguments Raise {A} e.

(** ** The regular expressions and the code built on them *)

Section Code.
Context {U : UnicodeData}.

(** The character class [[-*••]]. *)
Definition is_bullet (c : char) : bool := mem c [45; 42; 8226; 8226]%N.

(** [re.sub(r'^\s*[-*••]\s*', '', line)]: the pattern is anchored at
    the start, so it matches at most once. *)
Definition re_sub_bullet (line : str) : str :=
  match dropwhile isspace line with
  | c :: rest => if is_bullet c then dropwhile isspace rest else line
  | [] => line
  end.

(** [re.sub(r'^\d+\.?\s*', '', line)] *)
Definition re_sub_ordinal (line : str) : str :=
  match takewhile isdecimal line with
  | [] => line
  | _ :: _ =>
      let rest := dropwhile isdecimal line in
      let rest :=
        match rest with
        | c :: rest' => if N.eqb c 46 then rest' else rest
        | [] => rest
        end in
      dropwhile isspace rest
  end.

(** One match of [\{(\w+)\}] at the start of [s]: the captured name and
    the length of the match. *)
Definition match_marker (s : str) : option (str * nat) :=
  match s with
  | c :: rest =>
      if N.eqb c 123 then
        match takewhile isword rest, dropwhile isword rest with
        | (_ :: _) as name, d :: _ =>
            if N.eqb d 125 then Some (name, 2 + List.length name)%nat else None
        | _, _ => None
        end
      else None
  | [] => None
  end.

(** The text as the regex engine cuts it: the matches of [\{(\w+)\}],
    leftmost first and not overlapping, and the characters between them. *)
Inductive piece :=
| Text (c : char)
| Marker (name : str).

(** [skip] is the number of characters still inside the last match. *)
Fixpoint re_scan (skip : nat) (s : str) : list piece :=
  match s with
  | [] => []
  | c :: s' =>
      match skip with
      | S k => re_scan k s'
      | O =>
          match match_marker s with
          | Some (name, n) => Marker name :: re_scan (n - 1) s'
          | None => Text c :: re_scan 0 s'
          end
      end
  end.

(** [re.findall(r"\{(\w+)\}", text)] *)
Definition re_findall (text : str) : list str :=
  flat_map (fun p => match p with Text _ => [] | Marker name => [name] end)
           (re_scan 0 text).

(** [re.sub(r"\{(\w+)\}", repl, text)] for a function [repl] of the
    captured name. *)
Definition re_sub (repl : str -> str) (text : str) : str :=
  flat_map (fun p => match p with Text c => [c] | Marker name => repl name end)
           (re_scan 0 text).

(** [list(dict.fromkeys(l))]: the first occurrence of each element, in order. *)
Fixpoint unique (l : list str) : list str :=
  match l with
  | [] => []
  | x :: l' => x :: filter (fun y => negb (str_eqb x y)) (unique l')
  end.

Definition _find_placeholders (text : str) : list str := unique (re_findall text).

(** The template store: [prompts_dir / task_folder / prompt_type /
    "prompt.txt"], [None] when the file does not exist. *)
Definition prompt_store := str -> str -> option str.

(** The templating of [_load_and_fill_prompt], from the text [raw] of the
    file on: the check for missing placeholders, then the substitution. *)
Definition fill (raw : str) (placeholders : dict) : outcome str :=
  let placeholder_names := _find_placeholders raw in
  let missing := filter (fun p => negb (dict_mem p placeholders)) placeholder_names in
  match missing with
  | _ :: _ => Raise (ValueError missing (dict_keys placeholders))
  | [] =>
      let _repl name := py_str (dict_get name (VStr []) placeholders) in
      Return (re_sub _repl raw)
  end.

Definition _load_and_fill_prompt (prompts_dir : prompt_store)
  (task_folder prompt_type : str) (placeholders : dict) : outcome str :=
  match prompts_dir task_folder prompt_type with
  | None => Raise (FileNotFoundError task_folder prompt_type)
  | Some raw => fill raw placeholders
  end.

(** *** Line cleaning and key/value splitting *)

Definition _standard_line_clean (line : str) : str :=
  let line := strip line in
  match line with
  | [] => []
  | _ :: _ =>
      let line := re_sub_bullet line in
      let line := re_sub_ordinal line in
      strip line
  end.

(** [":", " - ", " — ", "–", "\t"] *)
Definition separators : list str :=
  [lit ":"; lit " - "; [32; 8212; 32]%N; [8211]%N; [9]%N].

(** The characters the second [strip] removes: asterisk, underscore,
    backquote, double quote, single quote and space. *)
Definition quote_chars : str := [42; 95; 96; 34; 39; 32]%N.

(** [x.strip().strip(quote_chars)] *)
Definition trim_quotes (x : str) : str := strip_chars quote_chars (strip x).

Fixpoint split_on (seps : list str) (line : str) : option (str * str) :=
  match seps with
  | sep :: seps' =>
      if contains sep line then
        let (left, right) := split1 sep line in
        Some (trim_quotes left, trim_quotes right)
      else split_on seps' line
  | [] =>
      match line with
      | [] => None
      | _ :: _ => Some (trim_quotes line, [])
      end
  end.

Definition _split_key_val (line : str) : option (str * str) :=
  split_on separators line.

(** *** The four parsers *)

(** [not line or line.upper() == "DONE" or line.startswith("#")] *)
Definition skipped (line : str) : bool :=
  (match line with [] => true | _ :: _ => false end
   || str_eqb (upper line) (lit "DONE")
   || startswith (lit "#") line)%bool.

(** The body of the [for raw_line in response.splitlines()] loop that the
    four parsers share: the pair of the line, or nothing when the loop
    continues. *)
Definition line_pair (raw_line : str) : option (str * str) :=
  let line := _standard_line_clean raw_line in
  if skipped line then None else _split_key_val line.

Definition parse_lines (emit : str -> str -> record) (response : str) : list record :=
  flat_map (fun raw_line =>
              match line_pair raw_line with
              | Some (k, v) => [emit k v]
              | None => []
              end)
           (splitlines response).

Definition _parse_lexicon_generating (response : str) (placeholders : dict) : list record :=
  parse_lines (fun word translation =>
    [ (lit "word", VStr word);
      (lit "translation", VStr translation);
      (lit "language", dict_get (lit "language") VNone placeholders);
      (lit "sentiment", py_or (dict_get (lit "sentiment") VNone placeholders)
                              (dict_get (lit "sentiment_type") VNone placeholders)) ])
    response.

Definition _parse_bootstrapping (response : str) (placeholders : dict) : list record :=
  parse_lines (fun item_key desc =>
    [ (lit "item", VStr item_key);
      (lit "description", VStr desc);
      (lit "language", dict_get (lit "language") VNone placeholders);
      (lit "target_type", dict_get (lit "target_type") VNone placeholders) ])
    response.

Definition _parse_sentiment_bearings (response : str) (placeholders : dict) : list record :=
  parse_lines (fun phrase bearing =>
    [ (lit "phrase", VStr phrase);
      (lit "bearing", VStr bearing);
      (lit "language", dict_get (lit "language") VNone placeholders);
      (lit "sentiment_type", py_or (dict_get (lit "sentiment_type") VNone placeholders)
                                   (dict_get (lit "sentiment") VNone placeholders)) ])
    response.

Definition context_keys : list str :=
  [lit "language"; lit "target_type"; lit "sentiment"; lit "sentiment_type"].

Definition _parse_generic_key_value (response : str) (placeholders : dict) : list record :=
  parse_lines (fun left right =>
    [ (lit "key", VStr left); (lit "value", VStr right) ]
    ++ filter (fun kv => existsb (str_eqb (fst kv)) context_keys) placeholders)
    response.

Definition _parse_response_by_task (response task_folder : str) (placeholders : dict)
  : list record :=
  let key := lower task_folder in
  if (contains (lit "lexicon_generating") key || contains (lit "lexicon-generating") key)%bool
  then _parse_lexicon_generating response placeholders
  else if (contains (lit "lexicon_bootstrapping") key || contains (lit "lexicon-bootstrapping") key)%bool
  then _parse_bootstrapping response placeholders
  else if (contains (lit "sentiment_bearings") key || contains (lit "sentiment-bearings") key)%bool
  then _parse_sentiment_bearings response placeholders
  else _parse_generic_key_value response placeholders.

End Code.

(** ** The batch loop *)

(** What a run does to the world outside, in the order it does it. *)
Inductive event :=
| Generate (batch : Z) (prompt : str) (temperature : Q) (max_tokens : Z)
| LogGenerationError (batch : Z) (e : exn)
| Parsed (response : str)
| LogNoItems (batch : Z)
| Progress (done total : Z)
| LogCallbackError (e : exn).

(** The task object.  The generation client is an external, stateful
    collaborator: [llm_client batch prompt temperature max_tokens] is the
    outcome of the call [generate(prompt, temperature, max_tokens)] that the
    run makes in batch number [batch].  A run makes one call per batch, so
    any sequence of responses and failures is such a function. *)
Record LLMTask := {
  llm_client : Z -> str -> Q -> Z -> outcome str;
  prompts_dir : prompt_store
}.

(** A progress callback, in the same style: the outcome of the call
    [progress_callback(done, total)] made in batch number [batch]. *)
Definition callback := Z -> Z -> Z -> outcome unit.

Definition DEFAULT_MAX_BATCHES : Z := 10.

(** The variables of the loop. *)
Record loop_state := {
  collected : list record;
  batch_count : Z;
  trace : list event
}.

Section Run.
Context {U : UnicodeData}.
Variable self : LLMTask.
Variable task_folder : str.
Variable placeholders : dict.
Variable target_count : Z.
Variable temperature : Q.
Variable max_tokens : Z.
Variable progress_callback : option callback.
Variable max_batches : Z.
Variable prompt : str.

(** [while len(collected) < target_count and batch_count < max_batches].
    The result is [None] when [fuel] iterations do not reach the end of the
    loop; [while_loop_total] shows that [max_batches] iterations always do. *)
Fixpoint while_loop (fuel : nat) (st : loop_state) : option loop_state :=
  if ((len (collected st) <? target_count) && (batch_count st <? max_batches))%bool then
    match fuel with
    | O => None
    | S fuel' =>
        let batch_count := batch_count st + 1 in
        let trace := trace st ++ [Generate batch_count prompt temperature max_tokens] in
        match llm_client self batch_count prompt temperature max_tokens with
        | Raise e =>
            (* except Exception: log and break *)
            Some {| collected := collected st;
                    batch_count := batch_count;
                    trace := trace ++ [LogGenerationError batch_count e] |}
        | Return response_text =>
            let batch_items :=
              _parse_response_by_task response_text task_folder placeholders in
            let trace := trace ++ [Parsed response_text] in
            match batch_items with
            | [] =>
                (* if not batch_items: warn and break *)
                Some {| collected := collected st;
                        batch_count := batch_count;
                        trace := trace ++ [LogNoItems batch_count] |}
            | _ :: _ =>
                let collected := collected st ++ batch_items in
                let trace :=
                  match progress_callback with
                  | None => trace
                  | Some cb =>
                      let done := Z.min (len collected) target_count in
                      trace ++ Progress done target_count ::
                        match cb batch_count done target_count with
                        | Return _ => []
                        | Raise e => [LogCallbackError e]
                        end
                  end in
                while_loop fuel' {| collected := collected;
                                    batch_count := batch_count;
                                    trace := trace |}
            end
        end
    end
  else Some st.

End Run.

(** [LLMTask.run]: what it returns or raises, and the trace of the run. *)
Definition run {U : UnicodeData} (self : LLMTask) (task_folder prompt_type : str)
  (placeholders : dict) (target_count : Z) (temperature : Q) (max_tokens : Z)
  (progress_callback : option callback) (max_batches : Z)
  : option (outcome (list record) * list event) :=
  match _load_and_fill_prompt (prompts_dir self) task_folder prompt_type placeholders with
  | Raise e => Some (Raise e, [])
  | Return prompt =>
      match while_loop self task_folder placeholders target_count temperature
                       max_tokens progress_callback max_batches prompt
                       (Z.to_nat max_batches)
                       {| collected := []; batch_count := 0; trace := [] |} with
      | Some st => Some (Return (slice_to (collected st) target_count), trace st)
      | None => None
      end
  end.

(** ** The order of line cleaning that the specification describes

    Section 4.3 of the specification decides whether a line is skipped on
    the trimmed line, before bullets and ordinals are removed.  This is that
    reading, to be compared with [line_pair]. *)
Definition spec_line_pair {U : UnicodeData} (raw_line : str) : option (str * str) :=
  let line := strip raw_line in
  if skipped line then None
  else _split_key_val (strip (re_sub_ordinal (re_sub_bullet line))).

(** ** Vocabulary for the properties *)

(** How often a trace calls the generation client. *)
Definition is_generate (e : event) : bool :=
  match e with Generate _ _ _ _ => true | _ => false end.

Definition generate_calls (tr : list event) : Z := len (filter is_generate tr).

(** A trace without the log entries of a failing progress callback. *)
Definition is_callback_error (e : event) : bool :=
  match e with LogCallbackError _ => true | _ => false end.

Definition without_callback_errors (tr : list event) : list event :=
  filter (fun e => negb (is_callback_error e)) tr.

Section Batches.
Context {U : UnicodeData}.
Variable self : LLMTask.
Variable task_folder : str.
Variable placeholders : dict.
Variable target_count : Z.
Variable temperature : Q.
Variable max_tokens : Z.
Variable progress_callback : option callback.
Variable max_batches : Z.
Variable prompt : str.

(** The test of the [while]. *)
Definition loop_guard (st : loop_state) : bool :=
  ((len (collected st) <? target_count) && (batch_count st <? max_batches))%bool.

(** The records that batch [b] contributes: those parsed from the response,
    none when the client raises. *)
Definition batch_items (b : Z) : list record :=
  match llm_client self b prompt temperature max_tokens with
  | Return response_text => _parse_response_by_task response_text task_folder placeholders
  | Raise _ => []
  end.

(** The records of batches [1 .. n], in order. *)
Fixpoint accumulated (n : nat) : list record :=
  match n with
  | O => []
  | S n' => accumulated n' ++ batch_items (Z.of_nat (S n'))
  end.

(** The number of records parsed in a trace. *)
Fixpoint parsed_total (tr : list event) : Z :=
  match tr with
  | [] => 0
  | Parsed r :: tr' =>
      len (_parse_response_by_task r task_folder placeholders) + parsed_total tr'
  | _ :: tr' => parsed_total tr'
  end.

(** The events of a batch whose response parses to at least one record,
    [coll] being the accumulator after the batch. *)
Definition callback_events (b : Z) (coll : list record) : list event :=
  match progress_callback with
  | None => []
  | Some cb =>
      let done := Z.min (len coll) target_count in
      Progress done target_count ::
        match cb b done target_count with
        | Return _ => []
        | Raise e => [LogCallbackError e]
        end
  end.

Definition ok_events (b : Z) (coll : list record) : list event :=
  Generate b prompt temperature max_tokens ::
  match llm_client self b prompt temperature max_tokens with
  | Return response_text => [Parsed response_text]
  | Raise _ => []
  end ++ callback_events b coll.

(** The events of a batch that ends the loop. *)
Definition fail_events (b : Z) : list event :=
  Generate b prompt temperature max_tokens ::
  match llm_client self b prompt temperature max_tokens with
  | Return response_text => [Parsed response_text; LogNoItems b]
  | Raise e => [LogGenerationError b e]
  end.

(** The loop variables after one more batch that yields records, and after
    [k] of them. *)
Definition next (st : loop_state) : loop_state :=
  let b := batch_count st + 1 in
  let coll := collected st ++ batch_items b in
  {| collected := coll; batch_count := b; trace := trace st ++ ok_events b coll |}.

Fixpoint after (k : nat) (st : loop_state) : loop_state :=
  match k with
  | O => st
  | S k' => after k' (next st)
  end.

Definition failed (st : loop_state) : loop_state :=
  let b := batch_count st + 1 in
  {| collected := collected st; batch_count := b; trace := trace st ++ fail_events b |}.

(** In a trace that starts with [count] records accumulated, every parse
    that yields records is followed at once by the progress call, with the
    number of records accumulated by then, capped at the target. *)
Definition progress_follows (count : Z) (tr : list event) : Prop :=
  forall pre r post,
    tr = pre ++ Parsed r :: post ->
    _parse_response_by_task r task_folder placeholders <> [] ->
    exists post',
      post = Progress (Z.min (count + parsed_total pre
                              + len (_parse_response_by_task r task_folder placeholders))
                             target_count)
                      target_count :: post'.

End Batches.

(** The number of batches a run makes when every batch yields [k] records:
    [ceil(target_count / k)], unless the ceiling [max_batches] is lower. *)
Definition batches_needed (target_count k max_batches : Z) : Z :=
  Z.min ((target_count + k - 1) / k) (Z.max 0 max_batches).

Definition initial : loop_state := {| collected := []; batch_count := 0; trace := [] |}.

(** ** Markers, as the specification speaks of them *)

Section Markers.
Context {U : UnicodeData}.

(** A placeholder name: one or more word characters. *)
Definition is_name (name : str) : Prop :=
  name <> [] /\ Forall (fun c => isword c = true) name.

(** The marker [{name}]. *)
Definition marker (name : str) : str := [123%N] ++ name ++ [125%N].

(** The text contains the marker [{name}]. *)
Definition has_marker (text name : str) : Prop :=
  is_name name /\ exists l r, text = l ++ marker name ++ r.

(** Textual substitution, read off the specification: going through the
    template from the left, a marker is replaced by the string form of its
    value and the rest of the template follows; any other character is
    kept.  The substituted value is not looked at again. *)
Inductive substituted (placeholders : dict) : str -> str -> Prop :=
| substituted_end : substituted placeholders [] []
| substituted_marker name v rest rest' :
    is_name name ->
    dict_find name placeholders = Some v ->
    substituted placeholders rest rest' ->
    substituted placeholders (marker name ++ rest) (py_str v ++ rest')
| substituted_char c rest rest' :
    (forall name r, is_name name -> c :: rest <> marker name ++ r) ->
    substituted placeholders rest rest' ->
    substituted placeholders (c :: rest) (c :: rest').

(** A template whose every opening brace opens a marker. *)
Inductive closed_template : str -> Prop :=
| closed_end : closed_template []
| closed_marker name rest :
    is_name name -> closed_template rest -> closed_template (marker name ++ rest)
| closed_char c rest :
    c <> 123%N -> closed_template rest -> closed_template (c :: rest).

End Markers.

(** ** Clean lines, as the specification speaks of them *)

Section CleanLines.
Context {U : UnicodeData}.

Definition trimmed (line : str) : Prop :=
  forall c, hd_error line = Some c \/ hd_error (rev line) = Some c -> isspace c = false.

Definition no_leading_bullet (line : str) : Prop :=
  forall c, hd_error line = Some c -> is_bullet c = false.

Definition no_leading_number (line : str) : Prop :=
  forall c, hd_error line = Some c -> isdecimal c = false.

End CleanLines.

(** [sep] occurs in [line]. *)
Definition occurs (sep line : str) : Prop := exists a b, line = a ++ sep ++ b.

(** [line] is [l], the first occurrence of [sep], and [r]. *)
Definition first_split (sep line l r : str) : Prop :=
  line = l ++ sep ++ r /\
  forall a b, line = a ++ sep ++ b -> (List.length l <= List.length a)%nat.

(** [t] is [s] without the characters of the class [p] at its two ends:
    what is left out at either end is of the class, and [t] neither begins
    nor ends with a character of the class. *)
Definition stripped (p : char -> bool) (s t : str) : Prop :=
  (exists a b, s = a ++ t ++ b
               /\ Forall (fun c => p c = true) a /\ Forall (fun c => p c = true) b)
  /\ forall c, hd_error t = Some c \/ hd_error (rev t) = Some c -> p c = false.

(** [k] is [x] trimmed of white space and then stripped of the quote
    characters. *)
Definition tidied (x k : str) : Prop :=
  exists m, stripped isspace x m /\ stripped (fun c => mem c quote_chars) m k.

(* ================================================================= *)
(** * Part II: properties *)
(* ================================================================= *)

(** ** The ASCII block as character data

    The tables restricted to ASCII: no other code point is alphanumeric, a
    digit or cased.  It agrees with every Python runtime on texts made of
    ASCII characters, which is what the examples below are made of. *)

Lemma ascii_upper_is_ascii c : is_ascii (ascii_upper c) -> is_ascii c.
Proof.
  unfold is_ascii, ascii_upper, between.
  destruct (N.leb 97 c && N.leb c 122)%bool eqn:E; [|tauto].
  apply andb_true_iff in E as [_ E%N.leb_le]. lia.
Qed.

Lemma map_ascii_upper_DONE s : map ascii_upper s = lit "DONE" -> Forall is_ascii s.
Proof.
  intros E.
  assert (H : Forall is_ascii (map ascii_upper s)).
  { rewrite E. repeat constructor. }
  rewrite Forall_map in H.
  eapply Forall_impl; [|exact H]. exact ascii_upper_is_ascii.
Qed.

Definition ascii_block : UnicodeData := {|
  isalnum := ascii_isalnum;
  isdecimal := ascii_isdigit;
  upper := map ascii_upper;
  lower := map ascii_lower;
  isalnum_ascii := fun _ _ => eq_refl;
  isdecimal_ascii := fun _ _ => eq_refl;
  upper_ascii := fun _ _ => eq_refl;
  lower_ascii := fun _ _ => eq_refl;
  upper_DONE := map_ascii_upper_DONE
|}.

(** ** The batch loop *)

Section LoopFacts.
Context {U : UnicodeData}.
Variable self : LLMTask.
Variable task_folder : str.
Variable placeholders : dict.
Variable target_count : Z.
Variable temperature : Q.
Variable max_tokens : Z.
Variable progress_callback : option callback.
Variable max_batches : Z.
Variable prompt : str.

Local Abbreviation loop :=
  (while_loop self task_folder placeholders target_count temperature max_tokens
              progress_callback max_batches prompt).
Local Abbreviation items := (batch_items self task_folder placeholders temperature max_tokens prompt).
Local Abbreviation step :=
  (next self task_folder placeholders target_count temperature max_tokens
        progress_callback prompt).
Local Abbreviation steps :=
  (after self task_folder placeholders target_count temperature max_tokens
         progress_callback prompt).
Local Abbreviation stop := (failed self temperature max_tokens prompt).
Local Abbreviation acc := (accumulated self task_folder placeholders temperature max_tokens prompt).

Local Abbreviation guard := (loop_guard target_count max_batches).

(** The three ways through one iteration. *)

Lemma loop_exit fuel st : guard st = false -> loop fuel st = Some st.
Proof.
  unfold loop_guard. intros G. destruct fuel; simpl; rewrite G; reflexivity.
Qed.

Lemma loop_stop fuel st :
  guard st = true -> items (batch_count st + 1) = [] ->
  loop (S fuel) st = Some (stop st).
Proof.
  unfold loop_guard, batch_items, failed, fail_events. intros G E. simpl. rewrite G.
  destruct (llm_client self _ prompt temperature max_tokens) as [r|e].
  - rewrite E. rewrite <- !app_assoc. reflexivity.
  - rewrite <- app_assoc. reflexivity.
Qed.

Lemma loop_step fuel st :
  guard st = true -> items (batch_count st + 1) <> [] ->
  loop (S fuel) st = loop fuel (step st).
Proof.
  unfold loop_guard. intros G E.
  assert (exists r, llm_client self (batch_count st + 1) prompt temperature max_tokens
                    = Return r
                    /\ items (batch_count st + 1)
                       = _parse_response_by_task r task_folder placeholders)
    as (r & L & I).
  { unfold batch_items in *.
    destruct (llm_client self _ prompt temperature max_tokens); [eauto | congruence]. }
  simpl. rewrite G, L. unfold next, ok_events, callback_events. rewrite L, I.
  rewrite I in E.
  destruct (_parse_response_by_task r task_folder placeholders) as [|i is_];
    [congruence|].
  f_equal. f_equal.
  destruct progress_callback as [cb|]; simpl; rewrite <- ?app_assoc; simpl;
    rewrite ?app_nil_r; reflexivity.
Qed.

(** Induction over a run of the loop. *)
Lemma loop_ind (P : loop_state -> loop_state -> Prop) :
  (forall st, guard st = false -> P st st) ->
  (forall st, guard st = true -> items (batch_count st + 1) = [] -> P st (stop st)) ->
  (forall st st', guard st = true -> items (batch_count st + 1) <> [] ->
                  P (step st) st' -> P st st') ->
  forall fuel st st', loop fuel st = Some st' -> P st st'.
Proof.
  intros Hexit Hstop Hstep. induction fuel as [|fuel IH]; intros st st' E.
  - destruct (guard st) eqn:G.
    + simpl in E. unfold loop_guard in G. rewrite G in E. discriminate.
    + rewrite loop_exit in E by assumption. injection E as <-. auto.
  - destruct (guard st) eqn:G.
    + destruct (items (batch_count st + 1)) as [|i is_] eqn:I.
      * rewrite loop_stop in E by assumption. injection E as <-. auto.
      * rewrite loop_step in E by (assumption || congruence).
        apply Hstep; [assumption | congruence | auto].
    + rewrite loop_exit in E by assumption. injection E as <-. auto.
Qed.

(** The loop ends within [max_batches - batch_count] iterations. *)
Lemma while_loop_total fuel st :
  (Z.to_nat (max_batches - batch_count st) <= fuel)%nat ->
  exists st', loop fuel st = Some st'.
Proof.
  revert st. induction fuel as [|fuel IH]; intros st F.
  - exists st. apply loop_exit. unfold loop_guard.
    apply andb_false_iff. right. apply Z.ltb_ge. lia.
  - destruct (guard st) eqn:G; [|exists st; apply loop_exit; assumption].
    destruct (items (batch_count st + 1)) as [|i is_] eqn:I.
    + exists (stop st). apply loop_stop; assumption.
    + rewrite loop_step by (assumption || congruence).
      apply IH. unfold loop_guard in G. apply andb_true_iff in G as [_ G%Z.ltb_lt].
      unfold next; simpl. lia.
Qed.

Lemma loop_steps k : forall fuel st,
  (forall j, (j < k)%nat ->
     guard (steps j st) = true /\ items (batch_count (steps j st) + 1) <> []) ->
  loop (k + fuel) st = loop fuel (steps k st).
Proof.
  induction k as [|k IH]; intros fuel st H; [reflexivity|].
  destruct (H 0%nat ltac:(lia)) as [G I]. simpl in G, I.
  change (loop (S (k + fuel)) st = loop fuel (steps k (step st))).
  rewrite loop_step by assumption.
  apply IH. intros j Hj. apply (H (S j)). lia.
Qed.

(** What the loop leaves behind. *)

Lemma generate_calls_app a b :
  generate_calls (a ++ b) = generate_calls a + generate_calls b.
Proof.
  unfold generate_calls, len. rewrite filter_app, length_app. lia.
Qed.

Lemma generate_calls_ok_events b coll :
  generate_calls (ok_events self target_count temperature max_tokens
                            progress_callback prompt b coll) = 1.
Proof.
  unfold ok_events, callback_events.
  destruct (llm_client self b prompt temperature max_tokens);
    destruct progress_callback as [cb|]; try reflexivity;
    simpl; destruct (cb b _ target_count); reflexivity.
Qed.

Lemma generate_calls_fail_events b :
  generate_calls (fail_events self temperature max_tokens prompt b) = 1.
Proof.
  unfold fail_events.
  destruct (llm_client self b prompt temperature max_tokens); reflexivity.
Qed.

Lemma steps_batch_count k : forall st,
  batch_count (steps k st) = batch_count st + Z.of_nat k.
Proof.
  induction k as [|k IH]; intros st; simpl after; [lia|].
  rewrite IH. unfold next; simpl. lia.
Qed.

Lemma steps_generate_calls k : forall st,
  generate_calls (trace (steps k st)) = generate_calls (trace st) + Z.of_nat k.
Proof.
  induction k as [|k IH]; intros st; simpl after; [lia|].
  rewrite IH. unfold next; simpl.
  rewrite generate_calls_app, generate_calls_ok_events. lia.
Qed.

Lemma steps_collected k : collected (steps k initial) = acc k.
Proof.
  assert (G : forall k n st, batch_count st = Z.of_nat n ->
                             collected st = acc n ->
                             collected (steps k st) = acc (k + n)).
  { clear k. induction k as [|k IH]; intros n st B C; [exact C|].
    simpl after. replace (S k + n)%nat with (k + S n)%nat by lia.
    apply IH; unfold next; simpl.
    - lia.
    - rewrite C, B. do 2 f_equal. lia. }
  rewrite (G k 0%nat initial); [f_equal; lia | reflexivity | reflexivity].
Qed.

Lemma acc_length_mono n m : (n <= m)%nat -> len (acc n) <= len (acc m).
Proof.
  induction 1 as [|m _ IH]; [lia|].
  simpl. unfold len in *. rewrite length_app. lia.
Qed.

(** One more generation call per batch, and never a batch beyond the
    ceiling. *)
Lemma loop_counts fuel st st' :
  loop fuel st = Some st' ->
  generate_calls (trace st') - generate_calls (trace st)
    = batch_count st' - batch_count st
  /\ batch_count st <= batch_count st' <= Z.max (batch_count st) max_batches
  /\ (guard st = false -> st' = st).
Proof.
  revert fuel st st'. apply loop_ind.
  - intros st G. repeat split; try lia. 
  - intros st G _. unfold failed; simpl.
    rewrite generate_calls_app, generate_calls_fail_events.
    pose proof G as G'.
    unfold loop_guard in G. apply andb_true_iff in G as [_ G%Z.ltb_lt].
    repeat split; try lia. congruence.
  - intros st st' G _ (C & B & _). revert C B. unfold next; simpl.
    rewrite generate_calls_app, generate_calls_ok_events.
    pose proof G as G'.
    unfold loop_guard in G. apply andb_true_iff in G as [_ G%Z.ltb_lt].
    intros C B. repeat split; try lia. congruence.
Qed.

End LoopFacts.

(** ** Slices *)

Lemma slice_to_nil {A} n : slice_to (@nil A) n = [].
Proof.
  unfold slice_to. destruct (0 <=? n); apply firstn_nil.
Qed.

Lemma slice_to_all {A} (l : list A) n : len l <= n -> slice_to l n = l.
Proof.
  unfold slice_to, len. intros H.
  destruct (0 <=? n) eqn:E; [apply firstn_all2; lia | apply Z.leb_gt in E; lia].
Qed.

Lemma slice_to_length {A} (l : list A) n :
  0 <= n -> len (slice_to l n) = Z.min (len l) n.
Proof.
  unfold slice_to, len. intros H.
  destruct (0 <=? n) eqn:E; [|apply Z.leb_gt in E; lia].
  rewrite length_firstn. lia.
Qed.

(** ** Runs *)

Lemma run_inv {U : UnicodeData} self task_folder prompt_type placeholders target_count
  temperature max_tokens progress_callback max_batches recs tr :
  run self task_folder prompt_type placeholders target_count temperature max_tokens
      progress_callback max_batches = Some (Return recs, tr) ->
  exists prompt st,
    _load_and_fill_prompt (prompts_dir self) task_folder prompt_type placeholders
      = Return prompt
    /\ while_loop self task_folder placeholders target_count temperature max_tokens
                  progress_callback max_batches prompt (Z.to_nat max_batches) initial
       = Some st
    /\ recs = slice_to (collected st) target_count
    /\ tr = trace st.
Proof.
  unfold run. fold initial.
  destruct (_load_and_fill_prompt _ _ _ _) as [prompt|e]; [|discriminate].
  destruct (while_loop _ _ _ _ _ _ _ _ _ _ _) as [st|] eqn:L; [|discriminate].
  intros [= <- <-]. exists prompt, st. repeat split; assumption || reflexivity.
Qed.

Lemma run_returns {U : UnicodeData} self task_folder prompt_type placeholders target_count
  temperature max_tokens progress_callback max_batches prompt st :
  _load_and_fill_prompt (prompts_dir self) task_folder prompt_type placeholders
    = Return prompt ->
  while_loop self task_folder placeholders target_count temperature max_tokens
             progress_callback max_batches prompt (Z.to_nat max_batches) initial
    = Some st ->
  run self task_folder prompt_type placeholders target_count temperature max_tokens
      progress_callback max_batches
    = Some (Return (slice_to (collected st) target_count), trace st).
Proof.
  unfold run. fold initial. intros -> ->. reflexivity.
Qed.

(** A run always comes to an end: it raises the error of the templating or
    returns. *)
Theorem run_total {U : UnicodeData} self task_folder prompt_type placeholders target_count
  temperature max_tokens progress_callback max_batches :
  exists result tr,
    run self task_folder prompt_type placeholders target_count temperature max_tokens
        progress_callback max_batches = Some (result, tr).
Proof.
  destruct (_load_and_fill_prompt (prompts_dir self) task_folder prompt_type placeholders)
    as [prompt|e] eqn:L.
  - destruct (while_loop_total self task_folder placeholders target_count temperature
                max_tokens progress_callback max_batches prompt
                (Z.to_nat max_batches) initial) as [st E].
    { simpl. lia. }
    rewrite (run_returns _ _ _ _ _ _ _ _ _ _ _ L E). eauto.
  - unfold run. rewrite L. eauto.
Qed.

(** C1 (as amended).  When [run] returns, it returns at most
    [max(target_count, 0)] records and it has called the generation client
    at most [max(max_batches, 0)] times. *)
Theorem run_bounded {U : UnicodeData} self task_folder prompt_type placeholders
  target_count temperature max_tokens progress_callback max_batches recs tr :
  run self task_folder prompt_type placeholders target_count temperature max_tokens
      progress_callback max_batches = Some (Return recs, tr) ->
  len recs <= Z.max 0 target_count /\ generate_calls tr <= Z.max 0 max_batches.
Proof.
  intros H. apply run_inv in H as (prompt & st & _ & L & -> & ->).
  apply loop_counts in L as (C & B & G).
  change (generate_calls (trace initial)) with 0 in C.
  change (batch_count initial) with 0 in C, B. split.
  - destruct (Z.le_gt_cases 0 target_count) as [T|T].
    + rewrite slice_to_length by assumption. lia.
    + rewrite G; [change (collected initial) with (@nil record);
                  rewrite slice_to_nil; unfold len; simpl; lia|].
      unfold loop_guard. simpl. apply andb_false_iff. left. apply Z.ltb_ge.
      unfold len; simpl. lia.
  - lia.
Qed.

(** C10.  With [target_count <= 0] or [max_batches <= 0] the run raises
    what the templating raises, and otherwise returns the empty list; in
    both cases the trace is empty: no generation call, no parse, no
    progress call. *)
Theorem run_nothing_to_do {U : UnicodeData} self task_folder prompt_type placeholders
  target_count temperature max_tokens progress_callback max_batches :
  target_count <= 0 \/ max_batches <= 0 ->
  run self task_folder prompt_type placeholders target_count temperature max_tokens
      progress_callback max_batches
  = Some (match _load_and_fill_prompt (prompts_dir self) task_folder prompt_type
                                      placeholders with
          | Raise e => Raise e
          | Return _ => Return []
          end, []).
Proof.
  intros H.
  destruct (_load_and_fill_prompt (prompts_dir self) task_folder prompt_type placeholders)
    as [prompt|e] eqn:L.
  - rewrite (run_returns _ _ _ _ _ _ _ _ _ _ initial L).
    + change (collected initial) with (@nil record).
      rewrite slice_to_nil. reflexivity.
    + apply loop_exit. unfold loop_guard. simpl. apply andb_false_iff.
      destruct H; [left|right]; apply Z.ltb_ge; unfold len; simpl; lia.
  - unfold run. rewrite L. reflexivity.
Qed.

(** C3.  Let batches [1 .. n] each have yielded records, with the target
    and the ceiling not yet reached, so that batch [n + 1] is run.  If in
    that batch the generation client raises, or its response parses to no
    record, then [run] returns, without raising, exactly the records of
    batches [1 .. n] (truncating them changes nothing), and batch [n + 1]
    is the last call of the generation client.  For [n = 0] the result is
    the empty list. *)
Theorem run_stops_at_failed_batch {U : UnicodeData} self task_folder prompt_type
  placeholders target_count temperature max_tokens progress_callback max_batches
  prompt (n : nat) :
  _load_and_fill_prompt (prompts_dir self) task_folder prompt_type placeholders
    = Return prompt ->
  (forall k, (1 <= k <= n)%nat ->
     batch_items self task_folder placeholders temperature max_tokens prompt (Z.of_nat k)
       <> []) ->
  len (accumulated self task_folder placeholders temperature max_tokens prompt n)
    < target_count ->
  Z.of_nat n < max_batches ->
  (exists e, llm_client self (Z.of_nat n + 1) prompt temperature max_tokens = Raise e)
  \/ (exists r, llm_client self (Z.of_nat n + 1) prompt temperature max_tokens = Return r
                /\ _parse_response_by_task r task_folder placeholders = []) ->
  exists tr,
    run self task_folder prompt_type placeholders target_count temperature max_tokens
        progress_callback max_batches
      = Some (Return (accumulated self task_folder placeholders temperature max_tokens
                                  prompt n), tr)
    /\ slice_to (accumulated self task_folder placeholders temperature max_tokens prompt n)
                target_count
       = accumulated self task_folder placeholders temperature max_tokens prompt n
    /\ generate_calls tr = Z.of_nat n + 1
    /\ (n = 0%nat -> accumulated self task_folder placeholders temperature max_tokens
                                 prompt n = []).
Proof.
  intros L OK T B F.
  set (steps := after self task_folder placeholders target_count temperature max_tokens
                      progress_callback prompt).
  assert (S : slice_to (accumulated self task_folder placeholders temperature max_tokens
                                    prompt n) target_count
              = accumulated self task_folder placeholders temperature max_tokens prompt n)
    by (apply slice_to_all; lia).
  assert (I : batch_items self task_folder placeholders temperature max_tokens prompt
                          (batch_count (steps n initial) + 1) = []).
  { unfold steps. rewrite steps_batch_count. change (batch_count initial) with 0.
    rewrite Z.add_0_l. unfold batch_items. destruct F as [[e ->]|(r & -> & ->)]; reflexivity. }
  assert (G : forall j, (j <= n)%nat ->
                loop_guard target_count max_batches (steps j initial) = true).
  { intros j Hj. unfold loop_guard, steps.
    rewrite steps_collected, steps_batch_count. change (batch_count initial) with 0.
    apply andb_true_iff. split; apply Z.ltb_lt; [|lia].
    pose proof (acc_length_mono self task_folder placeholders temperature max_tokens
                  prompt j n Hj). lia. }
  destruct (Z.to_nat max_batches - n)%nat as [|f] eqn:Ef; [lia|].
  exists (trace (failed self temperature max_tokens prompt (steps n initial))).
  split; [|split; [exact S|split]].
  - rewrite <- S.
    rewrite <- (steps_collected self task_folder placeholders target_count temperature
                  max_tokens progress_callback prompt n).
    apply (run_returns _ _ _ _ _ _ _ _ _ _
             (failed self temperature max_tokens prompt (steps n initial)) L).
    replace (Z.to_nat max_batches) with (n + Datatypes.S f)%nat by lia.
    rewrite loop_steps.
    + apply loop_stop; [apply G; lia | exact I].
    + intros j Hj. split; [apply G; lia|].
      fold steps. unfold steps. rewrite steps_batch_count.
      change (batch_count initial) with 0.
      replace (0 + Z.of_nat j + 1) with (Z.of_nat (Datatypes.S j)) by lia.
      apply OK. lia.
  - unfold failed. simpl trace.
    rewrite generate_calls_app, generate_calls_fail_events.
    unfold steps. rewrite steps_generate_calls.
    change (generate_calls (trace initial)) with 0. lia.
  - intros ->. reflexivity.
Qed.

Lemma acc_fixed_length {U : UnicodeData} self task_folder placeholders temperature
  max_tokens prompt k :
  (forall b, 1 <= b ->
     len (batch_items self task_folder placeholders temperature max_tokens prompt b) = k) ->
  forall n, len (accumulated self task_folder placeholders temperature max_tokens prompt n)
            = k * Z.of_nat n.
Proof.
  intros H. induction n as [|n IH]; [simpl; unfold len; simpl; lia|].
  simpl accumulated. unfold len in *. rewrite length_app, Nat2Z.inj_add, IH, H by lia.
  lia.
Qed.

(** C5 (as amended).  With [target_count > 0] and a generation client whose
    every response parses to [k > 0] records, [run] makes
    [min(ceil(target_count / k), max(max_batches, 0))] batches and returns
    the records of these batches cut to [target_count], which are
    [min(target_count, k * batches)] records. *)
Theorem run_fixed_batches {U : UnicodeData} self task_folder prompt_type placeholders
  target_count temperature max_tokens progress_callback max_batches prompt k :
  _load_and_fill_prompt (prompts_dir self) task_folder prompt_type placeholders
    = Return prompt ->
  0 < target_count -> 0 < k ->
  (forall b, 1 <= b ->
     len (batch_items self task_folder placeholders temperature max_tokens prompt b) = k) ->
  let n := batches_needed target_count k max_batches in
  exists recs tr,
    run self task_folder prompt_type placeholders target_count temperature max_tokens
        progress_callback max_batches = Some (Return recs, tr)
    /\ recs = slice_to (accumulated self task_folder placeholders temperature max_tokens
                                    prompt (Z.to_nat n)) target_count
    /\ len recs = Z.min target_count (k * n)
    /\ generate_calls tr = n
    /\ n <= (target_count + k - 1) / k
    /\ n <= Z.max 0 max_batches.
Proof.
  intros L T K H n.
  set (steps := after self task_folder placeholders target_count temperature max_tokens
                      progress_callback prompt).
  pose proof (acc_fixed_length _ _ _ _ _ _ _ H) as A.
  pose proof (Z.div_mod (target_count + k - 1) k ltac:(lia)) as D.
  pose proof (Z.mod_pos_bound (target_count + k - 1) k K) as M.
  assert (N0 : 0 <= n).
  { unfold n, batches_needed. apply Z.min_glb; [apply Z.div_pos|]; lia. }
  assert (Nc : n <= (target_count + k - 1) / k) by (unfold n, batches_needed; lia).
  assert (Nm : n <= Z.max 0 max_batches) by (unfold n, batches_needed; lia).
  assert (E : while_loop self task_folder placeholders target_count temperature max_tokens
                         progress_callback max_batches prompt (Z.to_nat max_batches) initial
              = Some (steps (Z.to_nat n) initial)).
  { replace (Z.to_nat max_batches) with (Z.to_nat n + (Z.to_nat max_batches - Z.to_nat n))%nat
      by lia.
    rewrite loop_steps.
    - apply loop_exit. unfold loop_guard, steps.
      rewrite steps_collected, steps_batch_count, A, Z2Nat.id by assumption.
      change (batch_count initial) with 0.
      apply andb_false_iff.
      destruct (Z.min_spec ((target_count + k - 1) / k) (Z.max 0 max_batches))
        as [[_ E]|[_ E]]; fold (batches_needed target_count k max_batches) in E;
        fold n in E; [left|right]; apply Z.ltb_ge; nia.
    - intros j Hj. fold steps. unfold loop_guard, steps.
      rewrite steps_collected, steps_batch_count, A.
      change (batch_count initial) with 0. split.
      + apply andb_true_iff. split; apply Z.ltb_lt; nia.
      + intros I. specialize (H (0 + Z.of_nat j + 1) ltac:(lia)).
        rewrite I in H. unfold len in H; simpl in H. lia. }
  exists (slice_to (collected (steps (Z.to_nat n) initial)) target_count),
         (trace (steps (Z.to_nat n) initial)).
  split; [exact (run_returns _ _ _ _ _ _ _ _ _ _ _ L E)|].
  unfold steps. rewrite steps_collected, steps_generate_calls.
  rewrite slice_to_length, A, Z2Nat.id by lia.
  change (generate_calls (trace initial)) with 0.
  repeat split; lia.
Qed.

(** ** The progress callback *)

Section ProgressFacts.
Context {U : UnicodeData}.
Variable self : LLMTask.
Variable task_folder : str.
Variable placeholders : dict.
Variable target_count : Z.
Variable temperature : Q.
Variable max_tokens : Z.
Variable max_batches : Z.
Variable prompt : str.

Local Abbreviation parse r := (_parse_response_by_task r task_folder placeholders).
Local Abbreviation total := (parsed_total task_folder placeholders).

Local Abbreviation progress_follows :=
  (progress_follows task_folder placeholders target_count).

Lemma parsed_total_app a b : total (a ++ b) = total a + total b.
Proof.
  induction a as [|e a IH]; simpl; [reflexivity|]. destruct e; lia.
Qed.

Lemma progress_follows_app count a b :
  progress_follows count a ->
  progress_follows (count + total a) b ->
  progress_follows count (a ++ b).
Proof.
  intros Ha Hb pre r post E NE.
  apply app_eq_app in E as [l [[E1 E2]|[E1 E2]]].
  - destruct l as [|e l].
    + rewrite app_nil_r in E1. subst a. simpl in E2.
      destruct (Hb [] r post (eq_sym E2) NE) as [post' ->].
      exists post'. simpl. do 2 f_equal. lia.
    + injection E2 as <- ->.
      destruct (Ha pre r l E1 NE) as [post' ->]. exists (post' ++ b). reflexivity.
  - subst pre.
    destruct (Hb l r post E2 NE) as [post' ->].
    exists post'. rewrite parsed_total_app. do 2 f_equal. lia.
Qed.

Variable cb : callback.

Lemma progress_follows_ok_events st :
  batch_items self task_folder placeholders temperature max_tokens prompt
              (batch_count st + 1) <> [] ->
  len (collected st) = total (trace st) ->
  let st' := next self task_folder placeholders target_count temperature max_tokens
                  (Some cb) prompt st in
  len (collected st') = total (trace st')
  /\ progress_follows (total (trace st))
       (ok_events self target_count temperature max_tokens (Some cb) prompt
                  (batch_count st') (collected st')).
Proof.
  intros I C. unfold next, ok_events, callback_events, batch_items in *. simpl.
  destruct (llm_client self (batch_count st + 1) prompt temperature max_tokens)
    as [r|e]; [|congruence].
  split.
  - rewrite parsed_total_app. unfold len in *. rewrite length_app, Nat2Z.inj_add, C.
    simpl. destruct (cb _ _ _); simpl; unfold len; lia.
  - intros pre r' post E NE.
    destruct pre as [|e0 pre]; [discriminate|]. injection E as <- E.
    destruct pre as [|e1 pre].
    + injection E as <- <-. eexists. simpl. f_equal. f_equal.
      unfold len. rewrite length_app, Nat2Z.inj_add. unfold len in C. lia.
    + injection E as <- E.
      destruct pre as [|e2 pre]; [discriminate|]. injection E as <- E.
      destruct (cb _ _ _); destruct pre as [|e3 pre]; try discriminate.
      injection E as <- E. destruct pre; discriminate.
Qed.

Lemma progress_follows_fail_events count b :
  batch_items self task_folder placeholders temperature max_tokens prompt b = [] ->
  progress_follows count (fail_events self temperature max_tokens prompt b).
Proof.
  unfold fail_events, batch_items. intros I pre r post E NE.
  destruct (llm_client self b prompt temperature max_tokens) as [r0|e].
  - destruct pre as [|e0 pre]; [discriminate|]. injection E as <- E.
    destruct pre as [|e1 pre]; [injection E as <- <-; congruence|].
    injection E as <- E.
    destruct pre as [|e2 pre]; [discriminate|]. injection E as <- E.
    destruct pre; discriminate.
  - destruct pre as [|e0 pre]; [discriminate|]. injection E as <- E.
    destruct pre as [|e1 pre]; [discriminate|]. injection E as <- E.
    destruct pre; discriminate.
Qed.

Lemma loop_progress fuel st st' :
  while_loop self task_folder placeholders target_count temperature max_tokens
             (Some cb) max_batches prompt fuel st = Some st' ->
  len (collected st) = total (trace st) ->
  progress_follows 0 (trace st) ->
  progress_follows 0 (trace st').
Proof.
  revert fuel st st'.
  apply (loop_ind self task_folder placeholders target_count temperature max_tokens
           (Some cb) max_batches prompt
           (fun st st' => len (collected st) = total (trace st) ->
                          progress_follows 0 (trace st) ->
                          progress_follows 0 (trace st'))).
  - auto.
  - intros st _ I C F. unfold failed; simpl.
    apply progress_follows_app; [assumption|].
    apply progress_follows_fail_events; assumption.
  - intros st st' _ I IH C F.
    destruct (progress_follows_ok_events st I C) as [C' F'].
    apply IH; [exact C'|].
    unfold next at 1; simpl trace.
    apply progress_follows_app; assumption.
Qed.

End ProgressFacts.

(** Two runs of the loop that differ only in what the progress callback
    does go through the same states, up to the log entries of the failing
    callback. *)
Lemma loop_callback_irrelevant {U : UnicodeData} self task_folder placeholders
  target_count temperature max_tokens max_batches prompt (cb cb' : callback) :
  forall fuel st1 st2 st1',
    collected st1 = collected st2 ->
    batch_count st1 = batch_count st2 ->
    without_callback_errors (trace st1) = without_callback_errors (trace st2) ->
    while_loop self task_folder placeholders target_count temperature max_tokens
               (Some cb) max_batches prompt fuel st1 = Some st1' ->
    exists st2',
      while_loop self task_folder placeholders target_count temperature max_tokens
                 (Some cb') max_batches prompt fuel st2 = Some st2'
      /\ collected st1' = collected st2'
      /\ batch_count st1' = batch_count st2'
      /\ without_callback_errors (trace st1') = without_callback_errors (trace st2').
Proof.
  unfold without_callback_errors.
  induction fuel as [|fuel IH]; intros st1 st2 st1' C B T E; simpl in *;
    rewrite <- C, <- B;
    destruct ((len (collected st1) <? target_count)
              && (batch_count st1 <? max_batches))%bool;
    try discriminate;
    try (injection E as <-; exists st2; auto).
  destruct (llm_client self (batch_count st1 + 1) prompt temperature max_tokens)
    as [r|e].
  - destruct (_parse_response_by_task r task_folder placeholders) as [|i is_].
    + injection E as <-. eexists. split; [reflexivity|]. simpl.
      rewrite !filter_app, T. auto.
    + eapply IH; [| | |exact E]; simpl; try reflexivity.
      rewrite !filter_app, T. simpl.
      destruct (cb _ _ _), (cb' _ _ _); reflexivity.
  - injection E as <-. eexists. split; [reflexivity|]. simpl.
    rewrite !filter_app, T. auto.
Qed.

(** C8.  With a progress callback, every batch that yields records is
    followed at once by the call
    [progress_callback(min(len(collected), target_count), target_count)];
    and whatever the callback raises changes neither the result of the run
    nor its trace, apart from the log entries for the callback's errors. *)
Theorem callback_errors_ignored {U : UnicodeData} self task_folder prompt_type
  placeholders target_count temperature max_tokens max_batches (cb cb' : callback)
  result tr :
  run self task_folder prompt_type placeholders target_count temperature max_tokens
      (Some cb) max_batches = Some (result, tr) ->
  progress_follows task_folder placeholders target_count 0 tr
  /\ exists tr',
       run self task_folder prompt_type placeholders target_count temperature max_tokens
           (Some cb') max_batches = Some (result, tr')
       /\ without_callback_errors tr' = without_callback_errors tr.
Proof.
  unfold run.
  destruct (_load_and_fill_prompt (prompts_dir self) task_folder prompt_type placeholders)
    as [prompt|e].
  - destruct (while_loop _ _ _ _ _ _ (Some cb) _ _ _ _) as [st|] eqn:L; [|discriminate].
    intros [= <- <-]. split.
    + eapply loop_progress; [exact L|reflexivity|].
      intros [|? ?] ? ? ?; discriminate.
    + eapply loop_callback_irrelevant with (cb' := cb') (st2 := {| collected := []; batch_count := 0; trace := [] |}) in L
        as (st2 & -> & C & _ & T); try reflexivity.
      rewrite C. eauto.
  - intros [= <- <-]. split; [intros [|? ?] ? ? ?; discriminate|eauto].
Qed.

(** ** Strings *)

Lemma str_eqb_eq a b : str_eqb a b = true <-> a = b.
Proof.
  revert b. induction a as [|x a IH]; intros [|y b]; simpl; split;
    try discriminate; try reflexivity.
  - intros [->%N.eqb_eq ->%IH]%andb_true_iff. reflexivity.
  - intros [= -> ->]. rewrite N.eqb_refl. apply IH. reflexivity.
Qed.

Lemma str_eqb_refl a : str_eqb a a = true.
Proof. apply str_eqb_eq. reflexivity. Qed.

Lemma str_eqb_neq a b : str_eqb a b = false <-> a <> b.
Proof.
  rewrite <- str_eqb_eq. destruct (str_eqb a b); split; congruence.
Qed.

Section WhileLemmas.
Context {A : Type} (p : A -> bool).

Lemma takewhile_dropwhile l : takewhile p l ++ dropwhile p l = l.
Proof.
  induction l as [|x l IH]; simpl; [reflexivity|].
  destruct (p x); simpl; congruence.
Qed.

Lemma takewhile_all l : Forall (fun x => p x = true) (takewhile p l).
Proof.
  induction l as [|x l IH]; simpl; [constructor|].
  destruct (p x) eqn:E; constructor; assumption.
Qed.

Lemma dropwhile_hd l x : hd_error (dropwhile p l) = Some x -> p x = false.
Proof.
  induction l as [|y l IH]; simpl; [discriminate|].
  destruct (p y) eqn:E; [exact IH|]. simpl. congruence.
Qed.

Lemma dropwhile_fix l :
  (forall x, hd_error l = Some x -> p x = false) -> dropwhile p l = l.
Proof.
  destruct l as [|y l]; simpl; [reflexivity|].
  intros H. rewrite (H y eq_refl). reflexivity.
Qed.

Lemma takewhile_fix l :
  (forall x, hd_error l = Some x -> p x = false) -> takewhile p l = [].
Proof.
  destruct l as [|y l]; simpl; [reflexivity|].
  intros H. rewrite (H y eq_refl). reflexivity.
Qed.

Lemma takewhile_app_stop l x r :
  Forall (fun y => p y = true) l -> p x = false -> takewhile p (l ++ x :: r) = l.
Proof.
  induction 1 as [|y l Hy _ IH]; intros Hx; simpl.
  - rewrite Hx. reflexivity.
  - rewrite Hy, IH by assumption. reflexivity.
Qed.

Lemma dropwhile_app_stop l x r :
  Forall (fun y => p y = true) l -> p x = false -> dropwhile p (l ++ x :: r) = x :: r.
Proof.
  induction 1 as [|y l Hy _ IH]; intros Hx; simpl.
  - rewrite Hx. reflexivity.
  - rewrite Hy, IH by assumption. reflexivity.
Qed.

End WhileLemmas.

(** *** [strip] *)

Lemma rstrip_by_prefix p s : exists t, s = rstrip_by p s ++ t.
Proof.
  exists (rev (takewhile p (rev s))). unfold rstrip_by.
  rewrite <- rev_app_distr, takewhile_dropwhile, rev_involutive. reflexivity.
Qed.

Lemma strip_by_fix p s :
  (forall c, hd_error s = Some c \/ hd_error (rev s) = Some c -> p c = false) ->
  strip_by p s = s.
Proof.
  intros H. unfold strip_by, lstrip_by, rstrip_by.
  rewrite (dropwhile_fix p s) by auto.
  rewrite (dropwhile_fix p (rev s)) by auto.
  apply rev_involutive.
Qed.

Lemma strip_by_trimmed p s c :
  hd_error (strip_by p s) = Some c \/ hd_error (rev (strip_by p s)) = Some c ->
  p c = false.
Proof.
  unfold strip_by, lstrip_by. intros [H|H].
  - destruct (rstrip_by_prefix p (dropwhile p s)) as [t E].
    destruct (rstrip_by p (dropwhile p s)) as [|x r]; [discriminate|].
    injection H as ->. apply (dropwhile_hd p s). rewrite E. reflexivity.
  - unfold rstrip_by in H. rewrite rev_involutive in H.
    eapply dropwhile_hd; eassumption.
Qed.

Lemma strip_by_idempotent p s : strip_by p (strip_by p s) = strip_by p s.
Proof.
  apply strip_by_fix. apply strip_by_trimmed.
Qed.

(** *** [startswith], [in] and [split] *)

Lemma startswith_app p b : startswith p (p ++ b) = true.
Proof.
  induction p as [|x p IH]; simpl; [reflexivity|].
  rewrite N.eqb_refl. exact IH.
Qed.

Lemma startswith_inv p s : startswith p s = true -> s = p ++ skipn (List.length p) s.
Proof.
  revert s. induction p as [|x p IH]; intros s; simpl; [reflexivity|].
  destruct s as [|c s]; [discriminate|].
  intros [->%N.eqb_eq H%IH]%andb_true_iff. simpl. congruence.
Qed.

Lemma contains_unfold sub s :
  contains sub s =
  if startswith sub s then true
  else match s with [] => false | _ :: s' => contains sub s' end.
Proof. destruct s; reflexivity. Qed.

Lemma contains_occurs sub s : contains sub s = true <-> occurs sub s.
Proof.
  split.
  - induction s as [|c s IH]; rewrite contains_unfold;
      destruct (startswith sub _) eqn:E; try discriminate.
    + intros _. exists [], (skipn (List.length sub) []). apply startswith_inv, E.
    + intros _. exists [], (skipn (List.length sub) (c :: s)). apply startswith_inv, E.
    + intros (a & b & ->)%IH. exists (c :: a), b. reflexivity.
  - intros (a & b & ->). induction a as [|c a IH]; rewrite contains_unfold.
    + simpl. rewrite startswith_app. reflexivity.
    + destruct (startswith sub _); [reflexivity|exact IH].
Qed.

Lemma split1_unfold sep s :
  split1 sep s =
  if startswith sep s then ([], skipn (List.length sep) s)
  else match s with
       | [] => ([], [])
       | c :: s' => let (l, r) := split1 sep s' in (c :: l, r)
       end.
Proof. destruct s; reflexivity. Qed.

Lemma split1_first sep line l r :
  first_split sep line l r -> split1 sep line = (l, r).
Proof.
  revert line. induction l as [|c l IH]; intros line [-> M]; rewrite split1_unfold.
  - simpl. rewrite startswith_app.
    rewrite skipn_app, skipn_all, Nat.sub_diag. reflexivity.
  - destruct (startswith sep _) eqn:E.
    + apply startswith_inv in E. specialize (M [] _ E). simpl in M. lia.
    + simpl. rewrite (IH (l ++ sep ++ r)); [reflexivity|].
      split; [reflexivity|]. intros a b E'.
      specialize (M (c :: a) b). simpl in M. rewrite E' in M.
      specialize (M eq_refl). lia.
Qed.

Lemma first_split_exists sep line :
  occurs sep line -> exists l r, first_split sep line l r.
Proof.
  intros (a & b & ->). induction a as [|c a (l & r & E & M)].
  - exists [], b. split; [reflexivity|]. intros; simpl; lia.
  - destruct (startswith sep ((c :: a) ++ sep ++ b)) eqn:S.
    + apply startswith_inv in S. exists [], (skipn (List.length sep) ((c :: a) ++ sep ++ b)).
      split; [exact S|]. intros; simpl; lia.
    + exists (c :: l), r. split; [simpl; congruence|].
      intros [|c' a'] b' E'.
      * change ([] ++ sep ++ b') with (sep ++ b') in E'.
        rewrite E', startswith_app in S. discriminate.
      * simpl in E'. injection E' as <- E'. simpl.
        specialize (M a' b' E'). lia.
Qed.

(** ** Key/value splitting *)

Lemma split_on_priority before sep after line :
  (forall s, In s before -> ~ occurs s line) ->
  occurs sep line ->
  exists l r,
    first_split sep line l r
    /\ split_on (before ++ sep :: after) line = Some (trim_quotes l, trim_quotes r).
Proof.
  intros N O. induction before as [|s before IH]; simpl.
  - destruct (first_split_exists sep line O) as (l & r & F).
    exists l, r. split; [exact F|].
    apply contains_occurs in O. rewrite O, (split1_first _ _ _ _ F). reflexivity.
  - destruct (contains s line) eqn:C.
    + apply contains_occurs in C. exfalso. apply (N s); [left; reflexivity|exact C].
    + apply IH. intros s' Hs'. apply N. right. exact Hs'.
Qed.

Lemma split_on_no_separator seps line :
  (forall s, In s seps -> ~ occurs s line) ->
  line <> [] ->
  split_on seps line = Some (trim_quotes line, []).
Proof.
  intros N NE. induction seps as [|s seps IH]; simpl.
  - destruct line; [congruence|reflexivity].
  - destruct (contains s line) eqn:C.
    + apply contains_occurs in C. exfalso. apply (N s); [left; reflexivity|exact C].
    + apply IH. intros s' Hs'. apply N. right. exact Hs'.
Qed.

Lemma split_on_some seps line : line <> [] -> exists kv, split_on seps line = Some kv.
Proof.
  intros NE. induction seps as [|s seps IH]; simpl.
  - destruct line; [congruence|eauto].
  - destruct (contains s line); [|exact IH].
    destruct (split1 s line). eauto.
Qed.

(** *** The two [strip]s, as the specification words them *)

Lemma dropwhile_all p (l : str) : Forall (fun c => p c = true) l -> dropwhile p l = [].
Proof.
  induction 1 as [|c l Hc _ IH]; simpl; [reflexivity|]. rewrite Hc. exact IH.
Qed.

Lemma strip_by_stripped p s : stripped p s (strip_by p s).
Proof.
  split; [|apply strip_by_trimmed].
  exists (takewhile p s), (rev (takewhile p (rev (dropwhile p s)))).
  split; [|split; [apply takewhile_all|apply Forall_rev, takewhile_all]].
  unfold strip_by, lstrip_by, rstrip_by.
  rewrite <- rev_app_distr, takewhile_dropwhile, rev_involutive.
  symmetry. apply takewhile_dropwhile.
Qed.

Lemma stripped_strip_by p s t : stripped p s t -> t = strip_by p s.
Proof.
  intros [(a & b & -> & Fa & Fb) E]. unfold strip_by, lstrip_by, rstrip_by.
  destruct t as [|c t].
  - simpl. rewrite (dropwhile_all p (a ++ b)) by (apply Forall_app; split; assumption).
    reflexivity.
  - simpl app. rewrite (dropwhile_app_stop p a c (t ++ b))
      by (exact Fa || (apply E; left; reflexivity)).
    change (c :: t ++ b) with ((c :: t) ++ b). rewrite rev_app_distr.
    destruct (rev (c :: t)) as [|d u] eqn:R.
    + apply (f_equal (@List.length _)) in R. rewrite length_rev in R. discriminate.
    + assert (Hd : p d = false).
      { apply E. right. reflexivity. }
      rewrite (dropwhile_app_stop p (rev b) d u) by (exact Hd || (apply Forall_rev; exact Fb)).
      rewrite <- R. apply eq_sym, rev_involutive.
Qed.

Lemma tidied_trim_quotes x : tidied x (trim_quotes x).
Proof.
  exists (strip x). split; apply strip_by_stripped.
Qed.

Lemma tidied_unique x k : tidied x k -> k = trim_quotes x.
Proof.
  intros (m & ->%stripped_strip_by & ->%stripped_strip_by). reflexivity.
Qed.

Lemma first_split_unique sep line l r l' r' :
  first_split sep line l r -> first_split sep line l' r' -> l = l' /\ r = r'.
Proof.
  intros F%split1_first F'%split1_first. rewrite F in F'. injection F' as <- <-. auto.
Qed.

(** C7 (as amended).  The separators are tried in the order colon,
    [" - "], [" — "], ["–"], tab.  The first of them that occurs in the line
    splits it at its first occurrence, and the key and the value are the two
    parts, each without the white space at its ends and then without the
    quote characters at its ends.  Without any separator a non-empty line
    is the key, stripped in the same two steps, and the value is empty.
    The parts and what is stripped from them are determined by the line.
    The empty line gives no pair, and ["a: b - c"] splits into ["a"] and
    ["b - c"]. *)
Theorem split_key_val_priority (line : str) :
  separators = [lit ":"; lit " - "; [32; 8212; 32]; [8211]; [9]]%N
  /\ (forall before sep after,
        separators = before ++ sep :: after ->
        (forall s, In s before -> ~ occurs s line) ->
        occurs sep line ->
        exists l r k v,
          first_split sep line l r /\ tidied l k /\ tidied r v
          /\ _split_key_val line = Some (k, v))
  /\ ((forall s, In s separators -> ~ occurs s line) ->
      line <> [] ->
      exists k, tidied line k /\ _split_key_val line = Some (k, []))
  /\ (forall sep l r l' r',
        first_split sep line l r -> first_split sep line l' r' -> l = l' /\ r = r')
  /\ (forall x k k', tidied x k -> tidied x k' -> k = k')
  /\ _split_key_val [] = None
  /\ _split_key_val (lit "a: b - c") = Some (lit "a", lit "b - c").
Proof.
  split; [reflexivity|]. split; [|split; [|split; [|split; [|split; reflexivity]]]].
  - intros before sep after E N O. unfold _split_key_val. rewrite E.
    destruct (split_on_priority before sep after line N O) as (l & r & F & S).
    exists l, r, (trim_quotes l), (trim_quotes r).
    repeat split; try apply tidied_trim_quotes; try exact S; apply F.
  - intros N NE. exists (trim_quotes line).
    split; [apply tidied_trim_quotes|apply split_on_no_separator; assumption].
  - intros sep. apply first_split_unique.
  - intros x k k' ->%tidied_unique ->%tidied_unique. reflexivity.
Qed.

(** ** Line cleaning *)

Section CleanFacts.
Context {U : UnicodeData}.

Lemma strip_trimmed line : trimmed line -> strip line = line.
Proof. intros T. apply strip_by_fix. exact T. Qed.

Lemma strip_is_trimmed line : trimmed (strip line).
Proof. intros c H. eapply strip_by_trimmed. exact H. Qed.

Lemma re_sub_bullet_fix line :
  trimmed line -> no_leading_bullet line -> re_sub_bullet line = line.
Proof.
  intros T B. unfold re_sub_bullet.
  rewrite dropwhile_fix by (intros c H; apply T; left; exact H).
  destruct line as [|c rest]; [reflexivity|].
  rewrite (B c eq_refl). reflexivity.
Qed.

Lemma re_sub_ordinal_fix line : no_leading_number line -> re_sub_ordinal line = line.
Proof.
  intros D. unfold re_sub_ordinal. rewrite takewhile_fix by exact D. reflexivity.
Qed.

Lemma clean_unchanged line :
  trimmed line -> no_leading_bullet line -> no_leading_number line ->
  _standard_line_clean line = line.
Proof.
  intros T B D. unfold _standard_line_clean.
  rewrite (strip_trimmed line T).
  destruct line as [|c rest] eqn:E; [reflexivity|]. rewrite <- E in *.
  rewrite re_sub_bullet_fix, re_sub_ordinal_fix, strip_trimmed; auto.
Qed.

(** The cleaning is the same four steps on every line: on the empty line
    they do nothing. *)
Lemma clean_steps raw_line :
  _standard_line_clean raw_line
  = strip (re_sub_ordinal (re_sub_bullet (strip raw_line))).
Proof.
  unfold _standard_line_clean. destruct (strip raw_line); reflexivity.
Qed.

Lemma clean_strip raw_line :
  _standard_line_clean (strip raw_line) = _standard_line_clean raw_line.
Proof.
  rewrite !clean_steps. unfold strip. rewrite strip_by_idempotent. reflexivity.
Qed.

(** A line that is skipped as it stands has neither bullet nor number in
    front. *)
Lemma skipped_no_prefix line :
  skipped line = true -> no_leading_bullet line /\ no_leading_number line.
Proof.
  unfold skipped. intros H.
  apply orb_true_iff in H as [H|H]; [apply orb_true_iff in H as [H|H]|].
  - destruct line; [|discriminate]. split; intros c; discriminate.
  - apply str_eqb_eq in H. pose proof (upper_DONE _ H) as A.
    rewrite (upper_ascii _ A) in H.
    destruct line as [|c rest]; [discriminate|]. injection H as H _.
    apply Forall_inv in A.
    assert (c = 68 \/ c = 100)%N as C.
    { unfold ascii_upper, between in H.
      destruct (N.leb 97 c && N.leb c 122)%bool; [right|left]; lia. }
    split; intros c' [= <-]; [|rewrite (isdecimal_ascii _ A)];
      destruct C as [-> | ->]; reflexivity.
  - destruct line as [|c rest]; [discriminate|].
    change (startswith (lit "#") (c :: rest)) with (N.eqb 35 c && true)%bool in H.
    apply andb_true_iff in H as [H%N.eqb_eq _]. subst c.
    split; intros c' [= <-]; [reflexivity|].
    rewrite isdecimal_ascii by (unfold is_ascii; lia). reflexivity.
Qed.

Lemma skipped_before_cleaning raw_line :
  skipped (strip raw_line) = true ->
  _standard_line_clean raw_line = strip raw_line.
Proof.
  intros H. rewrite <- clean_strip.
  destruct (skipped_no_prefix _ H) as [B D].
  apply clean_unchanged; [apply strip_is_trimmed|exact B|exact D].
Qed.

(** C9.  A line that is trimmed and starts with neither a bullet nor a
    digit is left unchanged by the cleaning. *)
Theorem clean_idempotent_on_clean (line : str) :
  trimmed line -> no_leading_bullet line -> no_leading_number line ->
  _standard_line_clean line = line.
Proof. exact (clean_unchanged line). Qed.

(** C6 (as amended).  The cleaning trims the line, removes a leading
    bullet, then a leading number, and trims again; whether the line is
    skipped is decided on the line so cleaned.  A line that would be skipped
    as it stands after the first trim is skipped, and a line that gives a
    pair gives the pair of the specification's order. *)
Theorem skip_decided_after_cleaning (raw_line : str) :
  _standard_line_clean raw_line
    = strip (re_sub_ordinal (re_sub_bullet (strip raw_line)))
  /\ (line_pair raw_line = None <-> skipped (_standard_line_clean raw_line) = true)
  /\ (skipped (strip raw_line) = true -> line_pair raw_line = None)
  /\ (forall kv, line_pair raw_line = Some kv -> spec_line_pair raw_line = Some kv).
Proof.
  split; [apply clean_steps|].
  assert (S : skipped (strip raw_line) = true -> line_pair raw_line = None).
  { intros H. unfold line_pair. rewrite skipped_before_cleaning, H by exact H.
    reflexivity. }
  split; [|split; [exact S|]].
  - unfold line_pair. destruct (skipped (_standard_line_clean raw_line)) eqn:K.
    + tauto.
    + split; [|discriminate]. intros N.
      destruct (split_on_some separators (_standard_line_clean raw_line)) as [kv E].
      * intros E. rewrite E in K. discriminate.
      * unfold _split_key_val in N. congruence.
  - intros kv H. unfold spec_line_pair.
    destruct (skipped (strip raw_line)) eqn:K.
    + rewrite S in H by reflexivity. discriminate.
    + unfold line_pair in H.
      destruct (skipped (_standard_line_clean raw_line)); [discriminate|].
      rewrite <- clean_steps. exact H.
Qed.

End CleanFacts.

(** ** Templating *)

Section TemplateFacts.
Context {U : UnicodeData}.

Lemma isword_open : isword 123%N = false.
Proof. unfold isword. rewrite isalnum_ascii by (unfold is_ascii; lia). reflexivity. Qed.

Lemma isword_close : isword 125%N = false.
Proof. unfold isword. rewrite isalnum_ascii by (unfold is_ascii; lia). reflexivity. Qed.

Lemma name_no_open name : is_name name -> ~ In 123%N name.
Proof.
  intros [_ W] I. rewrite Forall_forall in W. apply W in I.
  rewrite isword_open in I. discriminate.
Qed.

(** *** One match *)

Lemma match_marker_marker name r :
  is_name name -> match_marker (marker name ++ r) = Some (name, (2 + List.length name)%nat).
Proof.
  intros [NE W]. unfold marker, match_marker. simpl.
  rewrite <- app_assoc. simpl.
  rewrite takewhile_app_stop, dropwhile_app_stop by (exact W || exact isword_close).
  destruct name; [congruence|reflexivity].
Qed.

Lemma match_marker_inv s name n :
  match_marker s = Some (name, n) ->
  is_name name /\ n = (2 + List.length name)%nat /\ exists r, s = marker name ++ r.
Proof.
  unfold match_marker. destruct s as [|c rest]; [discriminate|].
  destruct (N.eqb c 123) eqn:C; [|discriminate]. apply N.eqb_eq in C. subst c.
  pose proof (takewhile_dropwhile isword rest) as E.
  pose proof (takewhile_all isword rest) as W.
  destruct (takewhile isword rest) as [|x w]; [discriminate|].
  destruct (dropwhile isword rest) as [|d r]; [discriminate|].
  destruct (N.eqb d 125) eqn:D; [|discriminate]. apply N.eqb_eq in D. subst d.
  intros [= <- <-]. repeat split; [discriminate|exact W|].
  exists r. subst rest. unfold marker. simpl. rewrite <- app_assoc. reflexivity.
Qed.

Lemma match_marker_none s :
  match_marker s = None <-> forall name r, is_name name -> s <> marker name ++ r.
Proof.
  split.
  - intros N name r Hn ->. rewrite match_marker_marker in N by assumption. discriminate.
  - intros H. destruct (match_marker s) as [[name n]|] eqn:E; [|reflexivity].
    apply match_marker_inv in E as (Hn & _ & r & ->). destruct (H name r Hn eq_refl).
Qed.

Lemma match_marker_other c s : c <> 123%N -> match_marker (c :: s) = None.
Proof.
  intros H. unfold match_marker. apply N.eqb_neq in H. rewrite H. reflexivity.
Qed.

(** *** The scan *)

Lemma re_scan_skip a b : re_scan (List.length a) (a ++ b) = re_scan 0 b.
Proof. induction a as [|c a IH]; [reflexivity|exact IH]. Qed.

Lemma re_scan_marker name r :
  is_name name -> re_scan 0 (marker name ++ r) = Marker name :: re_scan 0 r.
Proof.
  intros Hn. pose proof (match_marker_marker name r Hn) as M.
  unfold marker in *. simpl app in *. unfold re_scan at 1. fold re_scan.
  rewrite M. f_equal.
  replace (2 + List.length name - 1)%nat with (List.length (name ++ [125%N]))
    by (rewrite length_app; simpl; lia).
  rewrite <- re_scan_skip with (a := name ++ [125%N]) (b := r).
  rewrite <- !app_assoc. reflexivity.
Qed.

Lemma re_scan_char c s :
  match_marker (c :: s) = None -> re_scan 0 (c :: s) = Text c :: re_scan 0 s.
Proof. intros M. unfold re_scan at 1. fold re_scan. rewrite M. reflexivity. Qed.

(** Every text is empty, or starts with a marker, or starts with a
    character at which no marker starts. *)
Lemma template_ind (P : str -> Prop) :
  P [] ->
  (forall name r, is_name name -> P r -> P (marker name ++ r)) ->
  (forall c s, match_marker (c :: s) = None -> P s -> P (c :: s)) ->
  forall s, P s.
Proof.
  intros Hnil Hmarker Hchar s.
  assert (G : forall n s, (List.length s <= n)%nat -> P s).
  { clear s. induction n as [|n IH]; intros [|c s] L; auto; simpl in L; [lia|].
    destruct (match_marker (c :: s)) as [[name k]|] eqn:M.
    - apply match_marker_inv in M as (Hn & _ & r & E). rewrite E.
      apply Hmarker; [exact Hn|]. apply IH.
      apply (f_equal (@List.length _)) in E. unfold marker in E.
      simpl in E. rewrite !length_app in E. simpl in E. lia.
    - apply Hchar; [exact M|]. apply IH. lia. }
  apply (G (List.length s)). lia.
Qed.

Lemma re_findall_marker name r :
  is_name name -> re_findall (marker name ++ r) = name :: re_findall r.
Proof. intros Hn. unfold re_findall. rewrite re_scan_marker by exact Hn. reflexivity. Qed.

Lemma re_findall_char c s :
  match_marker (c :: s) = None -> re_findall (c :: s) = re_findall s.
Proof. intros M. unfold re_findall. rewrite re_scan_char by exact M. reflexivity. Qed.

Lemma re_sub_marker repl name r :
  is_name name -> re_sub repl (marker name ++ r) = repl name ++ re_sub repl r.
Proof. intros Hn. unfold re_sub. rewrite re_scan_marker by exact Hn. reflexivity. Qed.

Lemma re_sub_char repl c s :
  match_marker (c :: s) = None -> re_sub repl (c :: s) = c :: re_sub repl s.
Proof. intros M. unfold re_sub. rewrite re_scan_char by exact M. reflexivity. Qed.

(** Two names that end at a closing brace in the same text are one name. *)
Lemma name_unique name name' r r' :
  is_name name -> is_name name' ->
  name ++ 125%N :: r = name' ++ 125%N :: r' -> name = name'.
Proof.
  intros [_ W] [_ W'] E.
  apply (f_equal (takewhile isword)) in E.
  rewrite !takewhile_app_stop in E by (assumption || exact isword_close).
  exact E.
Qed.

(** A marker of [marker name' ++ r] is [name'] or a marker of [r]. *)
Lemma has_marker_after name' r name :
  is_name name' -> has_marker (marker name' ++ r) name -> name = name' \/ has_marker r name.
Proof.
  intros Hn' (Hn & l & r0 & E).
  destruct l as [|c l].
  - left. unfold marker in E. simpl in E. injection E as E.
    rewrite <- !app_assoc in E. simpl in E. symmetry. eapply name_unique; eassumption.
  - right. split; [exact Hn|].
    symmetry in E. apply app_eq_app in E as [k [[E1 E2]|[E1 E2]]].
    + exists k, r0. exact E2.
    + destruct k as [|d k].
      * exists [], r0. rewrite E2. reflexivity.
      * exfalso. unfold marker in E1, E2. simpl in E1, E2.
        injection E1 as _ E1. injection E2 as <- E2.
        assert (I : In 123%N (name' ++ [125%N])) by (rewrite E1; apply in_elt).
        apply in_app_or in I as [I|[I|[]]]; [|discriminate].
        exact (name_no_open _ Hn' I).
Qed.

(** [re.findall] finds the markers of the text, all of them. *)
Lemma re_findall_has_marker text name :
  In name (re_findall text) <-> has_marker text name.
Proof.
  revert text. apply (template_ind (fun text => In name (re_findall text) <-> has_marker text name)).
  - split; [intros []|]. intros (_ & l & r & E).
    destruct l; discriminate.
  - intros name' r Hn' IH. rewrite re_findall_marker by exact Hn'. split.
    + intros [<-|I].
      * split; [exact Hn'|]. exists [], r. reflexivity.
      * apply IH in I as (Hn & l & r0 & ->).
        split; [exact Hn|]. exists (marker name' ++ l), r0.
        rewrite <- app_assoc. reflexivity.
    + intros H. apply has_marker_after in H as [->|H]; [left; reflexivity| |exact Hn'].
      right. apply IH. exact H.
  - intros c s M IH. rewrite re_findall_char by exact M. rewrite IH. split.
    + intros (Hn & l & r & ->). split; [exact Hn|]. exists (c :: l), r. reflexivity.
    + intros (Hn & l & r & E). split; [exact Hn|].
      destruct l as [|d l].
      * exfalso. rewrite match_marker_none in M. exact (M name r Hn E).
      * injection E as _ E. exists l, r. exact E.
Qed.

(** *** [dict.fromkeys] *)

Lemma unique_In x l : In x (unique l) <-> In x l.
Proof.
  induction l as [|y l IH]; simpl; [tauto|].
  rewrite filter_In, IH, negb_true_iff, str_eqb_neq.
  destruct (list_eq_dec N.eq_dec y x); [tauto|]. split; [tauto|].
  intros [H|H]; [tauto|]. right. split; assumption.
Qed.

Lemma unique_NoDup l : NoDup (unique l).
Proof.
  induction l as [|y l IH]; simpl; constructor.
  - rewrite filter_In, negb_true_iff, str_eqb_neq. tauto.
  - apply NoDup_filter. exact IH.
Qed.

Lemma dict_mem_find k d : dict_mem k d = true -> exists v, dict_find k d = Some v.
Proof. unfold dict_mem. destruct (dict_find k d); [eauto|discriminate]. Qed.

End TemplateFacts.

Section FillFacts.
Context {U : UnicodeData}.
Variable placeholders : dict.

Local Abbreviation _repl :=
  (fun name => py_str (dict_get name (VStr []) placeholders)).

Lemma has_marker_cons c s name : has_marker s name -> has_marker (c :: s) name.
Proof.
  intros (Hn & l & r & ->). split; [exact Hn|]. exists (c :: l), r. reflexivity.
Qed.

Lemma has_marker_app a s name : has_marker s name -> has_marker (a ++ s) name.
Proof.
  intros H. induction a as [|c a IH]; [exact H|]. apply has_marker_cons, IH.
Qed.

Lemma has_marker_here name r : is_name name -> has_marker (marker name ++ r) name.
Proof. intros Hn. split; [exact Hn|]. exists [], r. reflexivity. Qed.

Lemma has_marker_open text name : has_marker text name -> In 123%N text.
Proof.
  intros (_ & l & r & ->). apply in_or_app. right. left. reflexivity.
Qed.

(** The markers without a value. *)
Lemma missing_spec raw name :
  In name (filter (fun p => negb (dict_mem p placeholders)) (_find_placeholders raw))
  <-> has_marker raw name /\ dict_mem name placeholders = false.
Proof.
  unfold _find_placeholders.
  rewrite filter_In, unique_In, re_findall_has_marker, negb_true_iff. reflexivity.
Qed.

Lemma fill_complete raw :
  (forall name, has_marker raw name -> dict_mem name placeholders = true) ->
  fill raw placeholders = Return (re_sub _repl raw).
Proof.
  intros H. unfold fill.
  destruct (filter _ (_find_placeholders raw)) as [|name missing] eqn:E; [reflexivity|].
  assert (I : In name (name :: missing)) by (left; reflexivity).
  rewrite <- E in I. apply missing_spec in I as [M F].
  rewrite (H name M) in F. discriminate.
Qed.

Lemma re_sub_substituted raw :
  (forall name, has_marker raw name -> dict_mem name placeholders = true) ->
  substituted placeholders raw (re_sub _repl raw).
Proof.
  revert raw. apply (template_ind (fun raw =>
    (forall name, has_marker raw name -> dict_mem name placeholders = true) ->
    substituted placeholders raw (re_sub _repl raw))).
  - intros _. constructor.
  - intros name r Hn IH H. rewrite re_sub_marker by exact Hn.
    destruct (dict_mem_find name placeholders (H name (has_marker_here name r Hn)))
      as [v F].
    unfold dict_get. rewrite F. constructor; [exact Hn|exact F|].
    apply IH. intros name0 H0. apply H. apply has_marker_app. exact H0.
  - intros c s M IH H. rewrite re_sub_char by exact M.
    constructor; [apply match_marker_none; exact M|].
    apply IH. intros name0 H0. apply H. apply has_marker_cons. exact H0.
Qed.

Lemma closed_no_open raw :
  closed_template raw ->
  (forall name v, has_marker raw name -> dict_find name placeholders = Some v ->
                  ~ In 123%N (py_str v)) ->
  ~ In 123%N (re_sub _repl raw).
Proof.
  induction 1 as [|name rest Hn _ IH|c rest Hc _ IH]; intros V.
  - intros [].
  - rewrite re_sub_marker by exact Hn. intros [I|I]%in_app_or.
    + unfold dict_get in I.
      destruct (dict_find name placeholders) as [v|] eqn:F; [|destruct I].
      exact (V name v (has_marker_here name rest Hn) F I).
    + apply IH; [|exact I]. intros name0 v H0. apply V. apply has_marker_app. exact H0.
  - rewrite re_sub_char by (apply match_marker_other; exact Hc). intros [I|I].
    + congruence.
    + apply IH; [|exact I]. intros name0 v H0. apply V. apply has_marker_cons. exact H0.
Qed.

(** C2 (as amended).  When every marker of the template has a value,
    [fill] returns the template with each marker, from the left, replaced
    by the string form of its value, the value not being read again.  The
    result has no marker left when every opening brace of the template opens
    a marker and no substituted value contains an opening brace. *)
Theorem fill_substitutes (raw : str) :
  (forall name, has_marker raw name -> dict_mem name placeholders = true) ->
  exists filled,
    fill raw placeholders = Return filled
    /\ substituted placeholders raw filled
    /\ (closed_template raw ->
        (forall name v, has_marker raw name -> dict_find name placeholders = Some v ->
                        ~ In 123%N (py_str v)) ->
        forall name, ~ has_marker filled name).
Proof.
  intros H. exists (re_sub _repl raw).
  split; [apply fill_complete; exact H|].
  split; [apply re_sub_substituted; exact H|].
  intros C V name M. apply (closed_no_open raw C V). eapply has_marker_open. exact M.
Qed.

End FillFacts.

(** C4.  When the template has a marker without a value, [run] raises the
    error that lists the markers without a value, each once, and the names
    supplied; the trace is empty: the error comes before any generation
    call, and nothing is returned. *)
Theorem missing_placeholder_aborts {U : UnicodeData} self task_folder prompt_type
  placeholders target_count temperature max_tokens progress_callback max_batches raw :
  prompts_dir self task_folder prompt_type = Some raw ->
  (exists name, has_marker raw name /\ dict_mem name placeholders = false) ->
  exists missing,
    run self task_folder prompt_type placeholders target_count temperature max_tokens
        progress_callback max_batches
      = Some (Raise (ValueError missing (dict_keys placeholders)), [])
    /\ (forall name, In name missing
                     <-> has_marker raw name /\ dict_mem name placeholders = false)
    /\ NoDup missing.
Proof.
  intros S (name & M).
  exists (filter (fun p => negb (dict_mem p placeholders)) (_find_placeholders raw)).
  split; [|split].
  - unfold run, _load_and_fill_prompt, fill. rewrite S.
    apply missing_spec in M.
    destruct (filter _ (_find_placeholders raw)); [destruct M|reflexivity].
  - intros name0. apply missing_spec.
  - apply NoDup_filter, unique_NoDup.
Qed.

(* ================================================================= *)
(** * Part III: the properties on sample runs *)
(* ================================================================= *)

(** The scenario of the specification: the template, its values, one
    response with two entries and the DONE line, then empty responses. *)
Definition newline : str := [10%N].
Definition weather_template : str := lit "List {n} words about {topic}.".
Definition weather_placeholders : dict :=
  [(lit "n", VInt 3); (lit "topic", VStr (lit "weather"))].
Definition weather_response : str :=
  lit "1. rain: precipitation" ++ newline ++ lit "2. sun: sunshine" ++ newline
  ++ lit "DONE".
Definition weather_task : LLMTask := {|
  llm_client := fun batch _ _ _ => if batch =? 1 then Return weather_response else Return [];
  prompts_dir := fun _ _ => Some weather_template
|}.

(** A client whose every response has five entries, and one that always
    raises. *)
Definition five_entries : str :=
  lit "a: 1" ++ newline ++ lit "b: 2" ++ newline ++ lit "c: 3" ++ newline
  ++ lit "d: 4" ++ newline ++ lit "e: 5".
Definition steady_task : LLMTask := {|
  llm_client := fun _ _ _ _ => Return five_entries;
  prompts_dir := fun _ _ => Some (lit "Five entries, please.")
|}.
Definition failing_task : LLMTask := {|
  llm_client := fun _ _ _ _ => Raise (Exception (lit "timeout"));
  prompts_dir := fun _ _ => Some (lit "Five entries, please.")
|}.

Definition quiet_callback : callback := fun _ _ _ => Return tt.
Definition raising_callback : callback :=
  fun _ _ _ => Raise (Exception (lit "observer failed")).

Definition lexicon : str := lit "lexicon_generating".
Definition generic : str := lit "notes".
Definition variant : str := lit "v1".
Definition one : Q := 1 # 1.

(** The end-to-end scenario of the specification. *)
Example weather_run :
  run (U := ascii_block) weather_task lexicon variant weather_placeholders 5 one 500 None 3
  = Some (Return [ [ (lit "word", VStr (lit "rain"));
                     (lit "translation", VStr (lit "precipitation"));
                     (lit "language", VNone); (lit "sentiment", VNone) ];
                   [ (lit "word", VStr (lit "sun"));
                     (lit "translation", VStr (lit "sunshine"));
                     (lit "language", VNone); (lit "sentiment", VNone) ] ],
          [ Generate 1 (lit "List 3 words about weather.") one 500;
            Parsed weather_response;
            Generate 2 (lit "List 3 words about weather.") one 500;
            Parsed [];
            LogNoItems 2 ]).
Proof. vm_compute. reflexivity. Qed.

(** *** C1 *)

Lemma run_bounded_witness :
  exists recs tr,
    run (U := ascii_block) weather_task lexicon variant weather_placeholders 5 one 500
        None 3 = Some (Return recs, tr)
    /\ len recs <= Z.max 0 5 /\ generate_calls tr <= Z.max 0 3.
Proof.
  do 2 eexists. split; [vm_compute; reflexivity|].
  apply (run_bounded (U := ascii_block) weather_task lexicon variant weather_placeholders
           5 one 500 None 3).
  vm_compute. reflexivity.
Defined.

(** With [target_count = -1] and [max_batches = -1] the run returns the
    empty list and makes no call: more than [target_count] records, more
    than [max_batches] calls. *)
Lemma run_negative_counts :
  run (U := ascii_block) steady_task generic variant [] (-1) one 500 None (-1)
    = Some (Return [], [])
  /\ ~ (len (@nil record) <= -1)
  /\ ~ (generate_calls [] <= -1).
Proof.
  split; [vm_compute; reflexivity|]. split; vm_compute; intros H; apply H; reflexivity.
Qed.

(** *** C2 *)

Ltac markers_of H :=
  apply re_findall_has_marker in H; vm_compute in H;
  repeat (destruct H as [<-|H]; [reflexivity|]); destruct H.

Ltac is_marker :=
  apply re_findall_has_marker; vm_compute; tauto.

Lemma fill_substitutes_witness :
  exists filled,
    fill (U := ascii_block) weather_template weather_placeholders = Return filled
    /\ filled = lit "List 3 words about weather."
    /\ substituted (U := ascii_block) weather_placeholders weather_template filled.
Proof.
  destruct (fill_substitutes (U := ascii_block) weather_placeholders weather_template)
    as (filled & F & S & _).
  { intros name H. markers_of H. }
  exists filled. split; [exact F|]. split; [|exact S].
  vm_compute in F. injection F as <-. reflexivity.
Defined.

(** The value of [a] spells a marker, which is not read again and stays
    in the result. *)
Lemma fill_leaves_marker :
  (forall name, has_marker (U := ascii_block) (lit "{a}") name ->
                dict_mem name [(lit "a", VStr (lit "{b}"))] = true)
  /\ fill (U := ascii_block) (lit "{a}") [(lit "a", VStr (lit "{b}"))]
     = Return (lit "{b}")
  /\ has_marker (U := ascii_block) (lit "{b}") (lit "b").
Proof.
  split; [|split].
  - intros name H. markers_of H.
  - vm_compute. reflexivity.
  - is_marker.
Qed.

(** Braces around a marker make a marker of the value. *)
Example fill_braces_around_marker :
  fill (U := ascii_block) (lit "{{a}}") [(lit "a", VStr (lit "x"))] = Return (lit "{x}")
  /\ has_marker (U := ascii_block) (lit "{x}") (lit "x").
Proof. split; [vm_compute; reflexivity|is_marker]. Qed.

(** *** C3 *)

Lemma run_stops_at_failed_batch_witness :
  exists tr,
    run (U := ascii_block) weather_task lexicon variant weather_placeholders 5 one 500
        (Some quiet_callback) 3
    = Some (Return (accumulated (U := ascii_block) weather_task lexicon
                                weather_placeholders one 500
                                (lit "List 3 words about weather.") 1), tr)
    /\ generate_calls tr = 2.
Proof.
  destruct (run_stops_at_failed_batch (U := ascii_block) weather_task lexicon variant
              weather_placeholders 5 one 500 (Some quiet_callback) 3
              (lit "List 3 words about weather.") 1)
    as (tr & E & _ & G & _).
  - vm_compute. reflexivity.
  - intros k Hk. replace k with 1%nat by lia. vm_compute. discriminate.
  - vm_compute. reflexivity.
  - lia.
  - right. exists []. split; vm_compute; reflexivity.
  - exists tr. split; [exact E|exact G].
Defined.

(** The client fails on the first call: the empty list, and no error. *)
Example first_call_fails :
  run (U := ascii_block) failing_task generic variant [] 5 one 500 None 3
  = Some (Return [],
          [ Generate 1 (lit "Five entries, please.") one 500;
            LogGenerationError 1 (Exception (lit "timeout")) ]).
Proof. vm_compute. reflexivity. Qed.

(** *** C4 *)

Lemma missing_placeholder_aborts_witness :
  exists missing,
    run (U := ascii_block) weather_task lexicon variant [(lit "n", VInt 3)] 5 one 500
        None 3
    = Some (Raise (ValueError missing [lit "n"]), [])
    /\ (forall name, In name missing
                     <-> has_marker (U := ascii_block) weather_template name
                         /\ dict_mem name [(lit "n", VInt 3)] = false)
    /\ NoDup missing.
Proof.
  apply (missing_placeholder_aborts (U := ascii_block) weather_task lexicon variant
           [(lit "n", VInt 3)] 5 one 500 None 3 weather_template).
  - reflexivity.
  - exists (lit "topic"). split; [is_marker|reflexivity].
Defined.

Example missing_topic :
  run (U := ascii_block) weather_task lexicon variant [(lit "n", VInt 3)] 5 one 500 None 3
  = Some (Raise (ValueError [lit "topic"] [lit "n"]), []).
Proof. vm_compute. reflexivity. Qed.

(** *** C5 *)

Lemma steady_batches (b : Z) :
  len (batch_items (U := ascii_block) steady_task generic [] one 500
                   (lit "Five entries, please.") b) = 5.
Proof. vm_compute. reflexivity. Qed.

Lemma run_fixed_batches_witness :
  exists recs tr,
    run (U := ascii_block) steady_task generic variant [] 12 one 500 None 10
      = Some (Return recs, tr)
    /\ len recs = 12
    /\ generate_calls tr = 3.
Proof.
  destruct (run_fixed_batches (U := ascii_block) steady_task generic variant [] 12 one 500
              None 10 (lit "Five entries, please.") 5)
    as (recs & tr & E & _ & L & G & _).
  - vm_compute. reflexivity.
  - lia.
  - lia.
  - intros b _. apply steady_batches.
  - exists recs, tr. split; [exact E|]. split; [exact L|exact G].
Defined.

(** The default run, 100 records in at most 10 batches, with five records
    a batch: 50 records, not 100. *)
Lemma run_default_ceiling :
  (forall b, 1 <= b ->
     len (batch_items (U := ascii_block) steady_task generic [] one 500
                      (lit "Five entries, please.") b) = 5)
  /\ exists recs tr,
       run (U := ascii_block) steady_task generic variant [] 100 one 500 None
           DEFAULT_MAX_BATCHES = Some (Return recs, tr)
       /\ len recs = 50
       /\ generate_calls tr = 10
       /\ len recs <> Z.min 100 (5 * ((100 + 5 - 1) / 5)).
Proof.
  split; [intros b _; apply steady_batches|].
  do 2 eexists. split; [vm_compute; reflexivity|].
  split; [|split]; vm_compute; reflexivity || discriminate.
Qed.

(** *** C6 *)

Lemma skip_decided_after_cleaning_witness :
  line_pair (U := ascii_block) (lit "  # a note") = None.
Proof.
  destruct (skip_decided_after_cleaning (U := ascii_block) (lit "  # a note"))
    as (_ & _ & S & _).
  apply S. vm_compute. reflexivity.
Defined.

(** The line ["- DONE"] is not skipped when the decision is made on the
    trimmed line, as the specification has it, and is skipped by the code. *)
Lemma bullet_DONE_skipped :
  skipped (U := ascii_block) (strip (lit "- DONE")) = false
  /\ spec_line_pair (U := ascii_block) (lit "- DONE") = Some (lit "DONE", [])
  /\ line_pair (U := ascii_block) (lit "- DONE") = None.
Proof. repeat split; vm_compute; reflexivity. Qed.

Example numbered_comment_skipped :
  spec_line_pair (U := ascii_block) (lit "2. # note") = Some (lit "# note", [])
  /\ line_pair (U := ascii_block) (lit "2. # note") = None.
Proof. split; vm_compute; reflexivity. Qed.

(** *** C7 *)

Definition rain_line : str := lit "rain - wet " ++ [8211%N] ++ lit " damp".

Ltac absent :=
  let H := fresh in
  intros H; apply contains_occurs in H; vm_compute in H; discriminate.

Lemma split_key_val_priority_witness :
  exists l r k v,
    first_split (lit " - ") rain_line l r /\ tidied l k /\ tidied r v
    /\ _split_key_val rain_line = Some (k, v).
Proof.
  destruct (split_key_val_priority rain_line) as (_ & P & _).
  apply (P [lit ":"] (lit " - ") [[32; 8212; 32]; [8211]; [9]]%N).
  - reflexivity.
  - intros s [<-|[]]. absent.
  - exists (lit "rain"), (lit "wet " ++ [8211%N] ++ lit " damp"). reflexivity.
Defined.

(** The line ['sun'], quotes included, has no separator; its key is [sun]
    and not the whole line. *)
Lemma quoted_line_key :
  (forall s, In s separators -> ~ occurs s (lit "'sun'"))
  /\ _split_key_val (lit "'sun'") = Some (lit "sun", [])
  /\ lit "sun" <> lit "'sun'".
Proof.
  split; [|split; [vm_compute; reflexivity|discriminate]].
  intros s I. repeat (destruct I as [<-|I]; [absent|]). destruct I.
Qed.

Example rain_split :
  _split_key_val rain_line = Some (lit "rain", lit "wet " ++ [8211%N] ++ lit " damp").
Proof. vm_compute. reflexivity. Qed.

Example quoted_key : _split_key_val (lit "'sun'") = Some (lit "sun", []).
Proof. vm_compute. reflexivity. Qed.

(** *** C8 *)

Lemma callback_errors_ignored_witness :
  exists result tr,
    run (U := ascii_block) weather_task lexicon variant weather_placeholders 5 one 500
        (Some raising_callback) 3 = Some (result, tr)
    /\ progress_follows (U := ascii_block) lexicon weather_placeholders 5 0 tr
    /\ exists tr',
         run (U := ascii_block) weather_task lexicon variant weather_placeholders 5 one
             500 (Some quiet_callback) 3 = Some (result, tr')
         /\ without_callback_errors tr' = without_callback_errors tr.
Proof.
  do 2 eexists. split; [vm_compute; reflexivity|].
  apply (callback_errors_ignored (U := ascii_block) weather_task lexicon variant
           weather_placeholders 5 one 500 3 raising_callback quiet_callback).
  vm_compute. reflexivity.
Defined.

Example raising_callback_trace :
  option_map snd
    (run (U := ascii_block) weather_task lexicon variant weather_placeholders 5 one 500
         (Some raising_callback) 3)
  = Some [ Generate 1 (lit "List 3 words about weather.") one 500;
           Parsed weather_response;
           Progress 2 5;
           LogCallbackError (Exception (lit "observer failed"));
           Generate 2 (lit "List 3 words about weather.") one 500;
           Parsed [];
           LogNoItems 2 ].
Proof. vm_compute. reflexivity. Qed.

(** *** C9 *)

Ltac first_or_last H :=
  destruct H as [H|H]; vm_compute in H; injection H as <-; reflexivity.

Lemma clean_idempotent_on_clean_witness :
  _standard_line_clean (U := ascii_block) (lit "rain: precipitation")
  = lit "rain: precipitation".
Proof.
  apply (clean_idempotent_on_clean (U := ascii_block) (lit "rain: precipitation")).
  - intros c H. first_or_last H.
  - intros c H. vm_compute in H. injection H as <-. reflexivity.
  - intros c H. vm_compute in H. injection H as <-. reflexivity.
Defined.

(** The cleaning of an arbitrary line need not be clean: a second cleaning
    removes the next bullet. *)
Example clean_twice :
  _standard_line_clean (U := ascii_block) (lit "- - x") = lit "- x"
  /\ _standard_line_clean (U := ascii_block) (lit "- x") = lit "x".
Proof. split; vm_compute; reflexivity. Qed.

(** *** C10 *)

Lemma run_nothing_to_do_witness :
  run (U := ascii_block) weather_task lexicon variant weather_placeholders 0 one 500
      (Some quiet_callback) 3 = Some (Return [], [])
  /\ run (U := ascii_block) weather_task lexicon variant [] 5 one 500
         (Some quiet_callback) 0
     = Some (Raise (ValueError [lit "n"; lit "topic"] []), []).
Proof.
  split.
  - apply (run_nothing_to_do (U := ascii_block) weather_task lexicon variant
             weather_placeholders 0 one 500 (Some quiet_callback) 3).
    left. lia.
  - apply (run_nothing_to_do (U := ascii_block) weather_task lexicon variant
             [] 5 one 500 (Some quiet_callback) 0).
    right. lia.
Defined.

(* ================================================================= *)
(** * Part IV: further properties of the code *)
(* ================================================================= *)

(** ** What a run returns and what it calls *)

Section RunShape.
Context {U : UnicodeData}.
Variable self : LLMTask.
Variable task_folder : str.
Variable placeholders : dict.
Variable target_count : Z.
Variable temperature : Q.
Variable max_tokens : Z.
Variable progress_callback : option callback.
Variable max_batches : Z.
Variable prompt : str.

Local Abbreviation loop :=
  (while_loop self task_folder placeholders target_count temperature max_tokens
              progress_callback max_batches prompt).
Local Abbreviation items := (batch_items self task_folder placeholders temperature max_tokens prompt).
Local Abbreviation acc := (accumulated self task_folder placeholders temperature max_tokens prompt).
Local Abbreviation by_loop :=
  (loop_ind self task_folder placeholders target_count temperature max_tokens
            progress_callback max_batches prompt).




(** The generation calls of a trace, one after the other. *)
Lemma filter_generate_ok_events b coll :
  filter is_generate (ok_events self target_count temperature max_tokens
                                progress_callback prompt b coll)
  = [Generate b prompt temperature max_tokens].
Proof.
  unfold ok_events, callback_events.
  destruct (llm_client self b prompt temperature max_tokens);
    destruct progress_callback as [cb|]; try reflexivity;
    simpl; destruct (cb b _ target_count); reflexivity.
Qed.

Lemma filter_generate_fail_events b :
  filter is_generate (fail_events self temperature max_tokens prompt b)
  = [Generate b prompt temperature max_tokens].
Proof.
  unfold fail_events.
  destruct (llm_client self b prompt temperature max_tokens); reflexivity.
Qed.

Definition calls_upto (n : nat) : list event :=
  map (fun b => Generate (Z.of_nat b) prompt temperature max_tokens) (seq 1 n).

Lemma calls_upto_S n :
  calls_upto (S n) = calls_upto n ++ [Generate (Z.of_nat n + 1) prompt temperature max_tokens].
Proof.
  unfold calls_upto. rewrite seq_S, map_app. simpl. do 3 f_equal. lia.
Qed.

Lemma loop_calls fuel st st' :
  loop fuel st = Some st' ->
  0 <= batch_count st ->
  filter is_generate (trace st) = calls_upto (Z.to_nat (batch_count st)) ->
  filter is_generate (trace st') = calls_upto (Z.to_nat (batch_count st')).
Proof.
  revert fuel st st'.
  apply (by_loop (fun st st' =>
    0 <= batch_count st ->
    filter is_generate (trace st) = calls_upto (Z.to_nat (batch_count st)) ->
    filter is_generate (trace st') = calls_upto (Z.to_nat (batch_count st')))).
  - auto.
  - intros st _ _ B T. unfold failed; simpl.
    rewrite filter_app, filter_generate_fail_events, T.
    replace (Z.to_nat (batch_count st + 1)) with (S (Z.to_nat (batch_count st))) by lia.
    rewrite calls_upto_S, Z2Nat.id by lia. reflexivity.
  - intros st st' _ _ IH B T. apply IH; unfold next; simpl; [lia|].
    rewrite filter_app, filter_generate_ok_events, T.
    replace (Z.to_nat (batch_count st + 1)) with (S (Z.to_nat (batch_count st))) by lia.
    rewrite calls_upto_S, Z2Nat.id by lia. reflexivity.
Qed.

(** How a run of the loop ends: with the test of the [while] false, or
    with the log entry of a batch that failed. *)
Definition ends_in_failure (tr : list event) : Prop :=
  exists pre b, tr = pre ++ [LogNoItems b] \/ exists e, tr = pre ++ [LogGenerationError b e].

Lemma loop_ending fuel st st' :
  loop fuel st = Some st' ->
  loop_guard target_count max_batches st' = false \/ ends_in_failure (trace st').
Proof.
  revert fuel st st'.
  apply (by_loop (fun _ st' =>
    loop_guard target_count max_batches st' = false \/ ends_in_failure (trace st'))).
  - auto.
  - intros st _ _. right. unfold failed, fail_events, ends_in_failure; simpl.
    destruct (llm_client self (batch_count st + 1) prompt temperature max_tokens) as [r|e].
    + exists (trace st ++ [Generate (batch_count st + 1) prompt temperature max_tokens;
                           Parsed r]), (batch_count st + 1).
      left. rewrite <- app_assoc. reflexivity.
    + exists (trace st ++ [Generate (batch_count st + 1) prompt temperature max_tokens]),
             (batch_count st + 1).
      right. exists e. rewrite <- app_assoc. reflexivity.
  - auto.
Qed.

End RunShape.



(** X6.  The generation client is called for the batches [1, 2, ...] in
    turn, every time with the filled prompt, the temperature and the token
    limit of the run. *)
Theorem run_calls_with_one_prompt {U : UnicodeData} self task_folder prompt_type
  placeholders target_count temperature max_tokens progress_callback max_batches recs tr :
  run self task_folder prompt_type placeholders target_count temperature max_tokens
      progress_callback max_batches = Some (Return recs, tr) ->
  exists prompt,
    _load_and_fill_prompt (prompts_dir self) task_folder prompt_type placeholders
      = Return prompt
    /\ filter is_generate tr
       = map (fun b => Generate (Z.of_nat b) prompt temperature max_tokens)
             (seq 1 (Z.to_nat (generate_calls tr))).
Proof.
  intros H. apply run_inv in H as (prompt & st & L & E & -> & ->).
  pose proof (loop_counts _ _ _ _ _ _ _ _ _ _ _ _ E) as (C & _).
  change (generate_calls (trace initial)) with 0 in C.
  change (batch_count initial) with 0 in C.
  apply loop_calls in E; [|simpl; lia|reflexivity].
  exists prompt. split; [exact L|].
  rewrite E. unfold calls_upto. do 3 f_equal. lia.
Qed.

Lemma run_calls_with_one_prompt_witness :
  exists tr prompt,
    option_map snd (run (U := ascii_block) weather_task lexicon variant
                        weather_placeholders 5 one 500 None 3) = Some tr
    /\ filter is_generate tr
       = map (fun b => Generate (Z.of_nat b) prompt one 500)
             (seq 1 (Z.to_nat (generate_calls tr))).
Proof.
  eexists.
  assert (R : run (U := ascii_block) weather_task lexicon variant weather_placeholders
                  5 one 500 None 3 = Some (Return _, _)) by (vm_compute; reflexivity).
  destruct (run_calls_with_one_prompt (U := ascii_block) _ _ _ _ _ _ _ _ _ _ _ R)
    as (prompt & _ & E).
  exists prompt. split; [rewrite R; reflexivity|exact E].
Defined.

(** X7.  A run that returns fewer than [target_count] records has used up
    its [max_batches] batches, or its last batch failed: the client raised
    or the response gave no record. *)
Theorem run_short_only_by_ceiling_or_failure {U : UnicodeData} self task_folder
  prompt_type placeholders target_count temperature max_tokens progress_callback
  max_batches recs tr :
  run self task_folder prompt_type placeholders target_count temperature max_tokens
      progress_callback max_batches = Some (Return recs, tr) ->
  len recs < target_count ->
  generate_calls tr = Z.max 0 max_batches \/ ends_in_failure tr.
Proof.
  intros H S. apply run_inv in H as (prompt & st & L & E & -> & ->).
  pose proof (loop_counts _ _ _ _ _ _ _ _ _ _ _ _ E) as (C & B & _).
  change (generate_calls (trace initial)) with 0 in C.
  change (batch_count initial) with 0 in C, B.
  apply loop_ending in E as [G|F]; [left|right; exact F].
  assert (T : 0 <= target_count) by (unfold len in S; lia).
  rewrite slice_to_length in S by exact T.
  unfold loop_guard in G. apply andb_false_iff in G as [G|G]; apply Z.ltb_ge in G; lia.
Qed.

Lemma run_short_only_by_ceiling_or_failure_witness :
  exists tr,
    option_map snd (run (U := ascii_block) steady_task generic variant [] 100 one 500
                        None 10) = Some tr
    /\ (generate_calls tr = Z.max 0 10 \/ ends_in_failure tr).
Proof.
  eexists.
  assert (R : run (U := ascii_block) steady_task generic variant [] 100 one 500 None 10
              = Some (Return _, _)) by (vm_compute; reflexivity).
  split; [rewrite R; reflexivity|].
  apply (run_short_only_by_ceiling_or_failure (U := ascii_block) _ _ _ _ _ _ _ _ _ _ _ R).
  vm_compute. reflexivity.
Defined.

(** ** A run without a progress callback *)

Definition is_callback_event (e : event) : bool :=
  match e with Progress _ _ | LogCallbackError _ => true | _ => false end.

Definition without_callback (tr : list event) : list event :=
  filter (fun e => negb (is_callback_event e)) tr.

Definition silent (st : loop_state) : loop_state :=
  {| collected := collected st;
     batch_count := batch_count st;
     trace := without_callback (trace st) |}.

Lemma loop_without_callback {U : UnicodeData} self task_folder placeholders target_count
  temperature max_tokens max_batches prompt (cb : callback) :
  forall fuel st,
    while_loop self task_folder placeholders target_count temperature max_tokens
               None max_batches prompt fuel (silent st)
    = option_map silent
        (while_loop self task_folder placeholders target_count temperature max_tokens
                    (Some cb) max_batches prompt fuel st).
Proof.
  induction fuel as [|fuel IH]; intros st; simpl;
    destruct ((len (collected st) <? target_count)
              && (batch_count st <? max_batches))%bool; try reflexivity.
  destruct (llm_client self (batch_count st + 1) prompt temperature max_tokens) as [r|e].
  - destruct (_parse_response_by_task r task_folder placeholders) as [|i is_].
    + simpl. unfold silent, without_callback. simpl. rewrite !filter_app. reflexivity.
    + rewrite <- IH. f_equal. unfold silent, without_callback. simpl.
      rewrite !filter_app. simpl.
      destruct (cb _ _ _); simpl; rewrite ?app_nil_r; reflexivity.
  - simpl. unfold silent, without_callback. simpl. rewrite !filter_app. reflexivity.
Qed.

(** X8.  Whether a progress callback is given changes nothing but the
    progress calls themselves: the run without a callback has the same
    result, and its trace is the trace of the run with the callback with
    the progress calls and their error entries taken out. *)
Theorem run_without_callback {U : UnicodeData} self task_folder prompt_type placeholders
  target_count temperature max_tokens max_batches (cb : callback) :
  run self task_folder prompt_type placeholders target_count temperature max_tokens
      None max_batches
  = option_map (fun rt => (fst rt, without_callback (snd rt)))
      (run self task_folder prompt_type placeholders target_count temperature max_tokens
           (Some cb) max_batches).
Proof.
  unfold run.
  destruct (_load_and_fill_prompt (prompts_dir self) task_folder prompt_type placeholders)
    as [prompt|e]; [|reflexivity].
  change {| collected := []; batch_count := 0; trace := [] |}
    with (silent {| collected := []; batch_count := 0; trace := [] |}) at 1.
  rewrite (loop_without_callback _ _ _ _ _ _ _ _ cb).
  destruct (while_loop _ _ _ _ _ _ (Some cb) _ _ _ _); reflexivity.
Qed.
(** ** More on the templating *)

(** [a] stands before [b] in the list. *)
Definition listed_before (a b : str) (names : list str) : Prop :=
  exists pre mid post, names = pre ++ a :: mid ++ b :: post.

Lemma listed_before_cons x a b names :
  listed_before a b names -> listed_before a b (x :: names).
Proof.
  intros (pre & mid & post & ->). exists (x :: pre), mid, post. reflexivity.
Qed.

Lemma listed_before_filter (p : str -> bool) a b names :
  listed_before a b (filter p names) -> listed_before a b names.
Proof.
  induction names as [|x names IH]; simpl.
  - intros (pre & mid & post & E). destruct pre; discriminate.
  - destruct (p x); [|intros H; apply listed_before_cons, IH, H].
    intros (pre & mid & post & E). destruct pre as [|y pre].
    + injection E as <- E.
      assert (I : In b (filter p names)) by (rewrite E; apply in_elt).
      apply filter_In in I as [I _]. apply in_split in I as (m & q & ->).
      exists [], m, q. reflexivity.
    + injection E as <- E. apply listed_before_cons, IH.
      exists pre, mid, post. exact E.
Qed.

Section MoreTemplateFacts.
Context {U : UnicodeData}.

(** In [text] the marker of [a] occurs before every occurrence of the
    marker of [b]. *)
Definition occurs_first (text a b : str) : Prop :=
  exists l r,
    text = l ++ marker a ++ r
    /\ forall l' r', text = l' ++ marker b ++ r' -> (List.length l < List.length l')%nat.

(** Where a marker can occur in a text that starts with a marker. *)
Lemma marker_after_marker name' r b l' r' :
  is_name name' -> is_name b ->
  marker name' ++ r = l' ++ marker b ++ r' ->
  (l' = [] /\ b = name')
  \/ exists l'', l' = marker name' ++ l'' /\ r = l'' ++ marker b ++ r'.
Proof.
  intros Hn' Hb E. destruct l' as [|c l'].
  - left. split; [reflexivity|]. unfold marker in E. simpl in E. injection E as E.
    rewrite <- !app_assoc in E. simpl in E. symmetry in E.
    eapply name_unique; eassumption.
  - right. apply app_eq_app in E as [k [[E1 E2]|[E1 E2]]].
    + destruct k as [|d k].
      * exists []. rewrite app_nil_r in *. split; [symmetry; exact E1|].
        exact (eq_sym E2).
      * exfalso. unfold marker in E1, E2. simpl in E1, E2.
        injection E1 as _ E1. injection E2 as <- E2.
        assert (I : In 123%N (name' ++ [125%N])) by (rewrite E1; apply in_elt).
        apply in_app_or in I as [I|[I|[]]]; [|discriminate].
        exact (name_no_open _ Hn' I).
    + exists k. split; [exact E1|exact E2].
Qed.

Lemma find_placeholders_order text a b :
  listed_before a b (_find_placeholders text) -> occurs_first text a b.
Proof.
  unfold _find_placeholders. revert text.
  apply (template_ind (fun text =>
    listed_before a b (unique (re_findall text)) -> occurs_first text a b)).
  - intros (pre & mid & post & E). destruct pre; discriminate.
  - intros name r Hn IH H.
    assert (Hb : has_marker (marker name ++ r) b).
    { apply re_findall_has_marker, unique_In.
      destruct H as (pre & mid & post & ->).
      apply in_or_app. right. right. apply in_elt. }
    rewrite re_findall_marker in H by exact Hn. simpl in H.
    destruct H as (pre & mid & post & E). destruct pre as [|y pre].
    + injection E as <- E. exists [], r. split; [reflexivity|].
      intros l' r' E'.
      apply marker_after_marker in E' as [[_ ->]|(l'' & -> & _)];
        [|unfold marker; rewrite !length_app; simpl; lia|exact Hn|apply Hb].
      exfalso.
      assert (I : In name (filter (fun y => negb (str_eqb name y))
                                  (unique (re_findall r))))
        by (rewrite E; apply in_elt).
      apply filter_In in I as [_ I]. rewrite str_eqb_refl in I. discriminate.
    + injection E as <- E.
      assert (B : In b (filter (fun y => negb (str_eqb name y)) (unique (re_findall r))))
        by (rewrite E; apply in_or_app; right; right; apply in_elt).
      apply filter_In in B as [_ B]. apply negb_true_iff, str_eqb_neq in B.
      destruct IH as (l & r0 & -> & M).
      { eapply listed_before_filter. exists pre, mid, post. exact E. }
      exists (marker name ++ l), r0. split; [rewrite <- app_assoc; reflexivity|].
      intros l' r' E'.
      apply marker_after_marker in E' as [[_ ->]|(l'' & -> & E'')];
        [congruence| |exact Hn|apply Hb].
      specialize (M l'' r' E''). rewrite !length_app. lia.
  - intros c s M IH H.
    assert (Hb : has_marker (c :: s) b).
    { apply re_findall_has_marker, unique_In.
      destruct H as (pre & mid & post & ->).
      apply in_or_app. right. right. apply in_elt. }
    rewrite re_findall_char in H by exact M.
    destruct (IH H) as (l & r0 & -> & F).
    exists (c :: l), r0. split; [reflexivity|].
    intros [|c' l'] r' E'.
    + exfalso. rewrite match_marker_none in M. exact (M b r' (proj1 Hb) E').
    + injection E' as _ E'. specialize (F l' r' E'). simpl. lia.
Qed.

(** X1.  [_find_placeholders] lists the names of the markers of the text,
    all of them and each once, in the order in which they first occur: of
    two names of the list the earlier one has a marker in the text before
    every marker of the later one. *)
Theorem find_placeholders_markers (text : str) :
  NoDup (_find_placeholders text)
  /\ (forall name, In name (_find_placeholders text) <-> has_marker text name)
  /\ (forall a b, listed_before a b (_find_placeholders text) -> occurs_first text a b).
Proof.
  split; [apply unique_NoDup|].
  split; [|intros a b; apply find_placeholders_order].
  intros name. unfold _find_placeholders. rewrite unique_In. apply re_findall_has_marker.
Qed.

Lemma re_sub_ext f g raw :
  (forall name, has_marker raw name -> f name = g name) ->
  re_sub f raw = re_sub g raw.
Proof.
  revert raw. apply (template_ind (fun raw =>
    (forall name, has_marker raw name -> f name = g name) ->
    re_sub f raw = re_sub g raw)).
  - reflexivity.
  - intros name r Hn IH H. rewrite !re_sub_marker by exact Hn.
    rewrite (H name (has_marker_here name r Hn)). f_equal.
    apply IH. intros name0 H0. apply H, has_marker_app, H0.
  - intros c s M IH H. rewrite !re_sub_char by exact M. f_equal.
    apply IH. intros name0 H0. apply H, has_marker_cons, H0.
Qed.

(** X2.  Only the values of the markers of the template count: two
    placeholder maps that hold the same values for them, whatever else they
    hold, fill the template to the same prompt. *)
Theorem fill_ignores_unused_keys (raw : str) (placeholders placeholders' : dict) :
  (forall name, has_marker raw name -> dict_mem name placeholders = true) ->
  (forall name, has_marker raw name ->
                dict_find name placeholders' = dict_find name placeholders) ->
  exists filled,
    fill raw placeholders = Return filled /\ fill raw placeholders' = Return filled.
Proof.
  intros K E. eexists. split; [apply fill_complete; exact K|].
  rewrite fill_complete.
  - f_equal. apply re_sub_ext. intros name H. unfold dict_get. rewrite (E name H).
    reflexivity.
  - intros name H. specialize (K name H). unfold dict_mem in *.
    rewrite (E name H). exact K.
Qed.

(** X3.  A template without an opening brace is the prompt as it stands,
    whatever the placeholder map holds. *)
Theorem fill_plain_text (raw : str) (placeholders : dict) :
  ~ In 123%N raw -> fill raw placeholders = Return raw.
Proof.
  intros N. rewrite fill_complete.
  - f_equal. induction raw as [|c raw IH]; [reflexivity|].
    rewrite re_sub_char.
    + f_equal. apply IH. intros I. apply N. right. exact I.
    + apply match_marker_other. intros ->. apply N. left. reflexivity.
  - intros name H. destruct (N (has_marker_open _ _ H)).
Qed.

End MoreTemplateFacts.

Lemma find_placeholders_markers_witness :
  occurs_first (lit "{ {a} and {b} and {a}") (lit "a") (lit "b").
Proof.
  destruct (find_placeholders_markers (U := ascii_block) (lit "{ {a} and {b} and {a}"))
    as (_ & _ & O).
  apply O. exists [], [], []. vm_compute. reflexivity.
Defined.

Lemma fill_ignores_unused_keys_witness :
  exists filled,
    fill (U := ascii_block) weather_template weather_placeholders = Return filled
    /\ fill (U := ascii_block) weather_template
            ((lit "language", VStr (lit "Zulu")) :: weather_placeholders)
       = Return filled.
Proof.
  apply (fill_ignores_unused_keys (U := ascii_block)).
  - intros name H. markers_of H.
  - intros name H. apply re_findall_has_marker in H. vm_compute in H.
    repeat (destruct H as [<-|H]; [reflexivity|]). destruct H.
Defined.

Lemma fill_plain_text_witness :
  fill (U := ascii_block) (lit "Five entries, please.") weather_placeholders
  = Return (lit "Five entries, please.").
Proof.
  apply (fill_plain_text (U := ascii_block)).
  vm_compute. intros H. repeat (destruct H as [H|H]; [discriminate|]). exact H.
Defined.

(** ** More on the line parsers *)

(** [x] is a part of [s] that ends where [s] ends. *)
Definition ends (x s : str) : Prop := exists a, s = a ++ x.

Lemma ends_refl s : ends s s.
Proof. exists []. reflexivity. Qed.

Lemma ends_trans x y s : ends x y -> ends y s -> ends x s.
Proof. intros [a ->] [b ->]. exists (b ++ a). rewrite app_assoc. reflexivity. Qed.

Lemma ends_dropwhile {p : char -> bool} s : ends (dropwhile p s) s.
Proof. exists (takewhile p s). symmetry. apply takewhile_dropwhile. Qed.

Lemma ends_tail c s : ends s (c :: s).
Proof. exists [c]. reflexivity. Qed.

Lemma ends_occurs x s : ends x s -> occurs x s.
Proof. intros [a ->]. exists a, []. rewrite app_nil_r. reflexivity. Qed.

Lemma occurs_refl s : occurs s s.
Proof. apply ends_occurs, ends_refl. Qed.

Lemma occurs_trans x y s : occurs x y -> occurs y s -> occurs x s.
Proof.
  intros (a & b & ->) (c & d & ->). exists (c ++ a), (b ++ d).
  rewrite <- !app_assoc. reflexivity.
Qed.

Lemma occurs_strip_by p s : occurs (strip_by p s) s.
Proof.
  unfold strip_by, lstrip_by.
  destruct (rstrip_by_prefix p (dropwhile p s)) as [t E].
  exists (takewhile p s), t. rewrite <- E. symmetry. apply takewhile_dropwhile.
Qed.

Lemma occurs_trim_quotes x : occurs (trim_quotes x) x.
Proof.
  unfold trim_quotes, strip_chars, strip.
  eapply occurs_trans; apply occurs_strip_by.
Qed.

(** Neither end of [s] is one of the characters of the second [strip]. *)
Definition no_quote_at_ends (s : str) : Prop :=
  forall c, hd_error s = Some c \/ hd_error (rev s) = Some c -> mem c quote_chars = false.

Lemma trim_quotes_ends x : no_quote_at_ends (trim_quotes x).
Proof.
  intros c H. unfold trim_quotes, strip_chars in H.
  exact (strip_by_trimmed (fun c => mem c quote_chars) _ c H).
Qed.

Lemma split1_parts sep line :
  contains sep line = true ->
  line = fst (split1 sep line) ++ sep ++ snd (split1 sep line).
Proof.
  intros C. apply contains_occurs in C.
  destruct (first_split_exists sep line C) as (l & r & F).
  rewrite (split1_first _ _ _ _ F). exact (proj1 F).
Qed.

Lemma split_on_parts seps line k v :
  split_on seps line = Some (k, v) ->
  exists x y, k = trim_quotes x /\ v = trim_quotes y /\ occurs x line /\ occurs y line.
Proof.
  induction seps as [|sep seps IH]; simpl.
  - destruct line as [|c line]; [discriminate|]. intros [= <- <-].
    exists (c :: line), []. repeat split; [apply occurs_refl|].
    exists [], (c :: line). reflexivity.
  - destruct (contains sep line) eqn:C; [|exact IH].
    pose proof (split1_parts sep line C) as E.
    destruct (split1 sep line) as [l r]. simpl in E. intros [= <- <-].
    exists l, r. repeat split.
    + exists [], (sep ++ r). exact E.
    + exists (l ++ sep), []. rewrite app_nil_r, <- app_assoc. exact E.
Qed.

(** X13.  [_split_key_val] gives no pair for the empty line only.  The key
    and the value of a pair are parts of the line, and neither begins or
    ends with an asterisk, an underscore, a backquote, a quote or a space. *)
Theorem split_key_val_parts (line : str) :
  (_split_key_val line = None <-> line = [])
  /\ (forall k v,
        _split_key_val line = Some (k, v) ->
        occurs k line /\ occurs v line /\ no_quote_at_ends k /\ no_quote_at_ends v).
Proof.
  split.
  - split; [|intros ->; reflexivity].
    intros N. destruct line as [|c line]; [reflexivity|].
    destruct (split_on_some separators (c :: line)) as [kv E]; [discriminate|].
    unfold _split_key_val in N. congruence.
  - intros k v H. apply split_on_parts in H as (x & y & -> & -> & X & Y).
    repeat split; try apply trim_quotes_ends;
      (eapply occurs_trans; [apply occurs_trim_quotes|assumption]).
Qed.

Lemma split_key_val_parts_witness :
  occurs (lit "rain") (lit "**rain**: 'wet'")
  /\ occurs (lit "wet") (lit "**rain**: 'wet'")
  /\ no_quote_at_ends (lit "rain") /\ no_quote_at_ends (lit "wet").
Proof.
  destruct (split_key_val_parts (lit "**rain**: 'wet'")) as [_ P].
  apply (P (lit "rain") (lit "wet")). vm_compute. reflexivity.
Defined.

Section MoreCleanFacts.
Context {U : UnicodeData}.

Lemma ends_re_sub_bullet line : ends (re_sub_bullet line) line.
Proof.
  unfold re_sub_bullet.
  pose proof (@ends_dropwhile isspace line) as D.
  destruct (dropwhile isspace line) as [|c rest]; [apply ends_refl|].
  destruct (is_bullet c); [|apply ends_refl].
  eapply ends_trans; [apply ends_dropwhile|].
  eapply ends_trans; [apply ends_tail|exact D].
Qed.

Lemma ends_re_sub_ordinal line : ends (re_sub_ordinal line) line.
Proof.
  unfold re_sub_ordinal.
  destruct (takewhile isdecimal line) as [|d ds]; [apply ends_refl|].
  pose proof (@ends_dropwhile isdecimal line) as D.
  eapply ends_trans; [apply ends_dropwhile|].
  destruct (dropwhile isdecimal line) as [|c rest]; [exact D|].
  destruct (N.eqb c 46); [|exact D].
  eapply ends_trans; [apply ends_tail|exact D].
Qed.

(** X14.  The cleaned line is a part of the raw line, taken as it stands,
    and it neither begins nor ends with white space. *)
Theorem clean_line_is_trimmed_part (raw_line : str) :
  occurs (_standard_line_clean raw_line) raw_line
  /\ trimmed (_standard_line_clean raw_line).
Proof.
  rewrite clean_steps. split; [|apply strip_is_trimmed].
  eapply occurs_trans; [apply occurs_strip_by|].
  eapply occurs_trans; [apply ends_occurs, ends_re_sub_ordinal|].
  eapply occurs_trans; [apply ends_occurs, ends_re_sub_bullet|].
  apply occurs_strip_by.
Qed.

(** *** The four parsers together *)

(** The pairs of the lines of a response that are not skipped. *)
Definition response_pairs (response : str) : list (str * str) :=
  flat_map (fun raw_line => match line_pair raw_line with
                            | Some kv => [kv]
                            | None => []
                            end)
           (splitlines response).

Lemma parse_lines_pairs emit response :
  parse_lines emit response
  = map (fun kv => emit (fst kv) (snd kv)) (response_pairs response).
Proof.
  unfold parse_lines, response_pairs.
  induction (splitlines response) as [|l ls IH]; [reflexivity|].
  simpl. rewrite map_app, IH. f_equal.
  destruct (line_pair l) as [[k v]|]; reflexivity.
Qed.

Lemma response_pairs_length response :
  (List.length (response_pairs response) <= List.length (splitlines response))%nat.
Proof.
  unfold response_pairs.
  induction (splitlines response) as [|l ls IH]; [simpl; lia|].
  simpl. rewrite length_app. destruct (line_pair l); simpl; lia.
Qed.

(** Every parser is [parse_lines] with its own record. *)
Lemma parse_response_by_task_emit response task_folder placeholders :
  exists emit,
    _parse_response_by_task response task_folder placeholders
    = parse_lines emit response
    /\ forall k v, firstn 2 (map snd (emit k v)) = [VStr k; VStr v].
Proof.
  unfold _parse_response_by_task.
  destruct (contains _ _ || contains _ _)%bool;
    [|destruct (contains _ _ || contains _ _)%bool;
      [|destruct (contains _ _ || contains _ _)%bool]];
    eexists; (split; [reflexivity|]); reflexivity.
Qed.

(** X9.  Which lines of a response give a record, and with which key and
    value, depends neither on the task folder nor on the placeholders: the
    records are, line by line, those of the pairs of the response, each
    with the key and the value as its first two fields, and there are never
    more records than lines. *)
Theorem records_follow_pairs (response task_folder : str) (placeholders : dict) :
  map (fun rec => firstn 2 (map snd rec))
      (_parse_response_by_task response task_folder placeholders)
  = map (fun kv => [VStr (fst kv); VStr (snd kv)]) (response_pairs response)
  /\ List.length (_parse_response_by_task response task_folder placeholders)
     = List.length (response_pairs response)
  /\ (List.length (_parse_response_by_task response task_folder placeholders)
      <= List.length (splitlines response))%nat.
Proof.
  destruct (parse_response_by_task_emit response task_folder placeholders)
    as (emit & -> & E).
  rewrite parse_lines_pairs, map_map, length_map.
  split; [|split; [reflexivity|apply response_pairs_length]].
  apply map_ext. intros [k v]. apply E.
Qed.

Lemma dict_find_filter (p : str -> bool) (d : dict) k :
  p k = true -> dict_find k (filter (fun kv => p (fst kv)) d) = dict_find k d.
Proof.
  intros H. induction d as [|[k' v] d IH]; [reflexivity|]. simpl.
  destruct (p k') eqn:E; simpl.
  - destruct (str_eqb k k'); [reflexivity|exact IH].
  - destruct (str_eqb k k') eqn:K; [|exact IH].
    apply str_eqb_eq in K. subst k'. congruence.
Qed.

(** X11.  The records of the generic parser are, in order, those of the
    pairs of the response: a record holds the key of its pair under [key]
    and the value under [value], also when the placeholders have entries of
    these names, and looking up [language], [target_type], [sentiment] or
    [sentiment_type] in it gives what the placeholders hold for the name,
    nothing when they hold nothing. *)
Theorem generic_record_context (response : str) (placeholders : dict) :
  Forall2 (fun rec kv =>
             dict_find (lit "key") rec = Some (VStr (fst kv))
             /\ dict_find (lit "value") rec = Some (VStr (snd kv))
             /\ forall name, In name context_keys ->
                             dict_find name rec = dict_find name placeholders)
          (_parse_generic_key_value response placeholders)
          (response_pairs response).
Proof.
  unfold _parse_generic_key_value. rewrite parse_lines_pairs.
  induction (response_pairs response) as [|[k v] pairs IH]; constructor; [|exact IH].
  split; [reflexivity|]. split; [reflexivity|].
  intros name I.
  assert (E : existsb (str_eqb name) context_keys = true).
  { apply existsb_exists. exists name. split; [exact I|apply str_eqb_refl]. }
  assert (K : str_eqb name (lit "key") = false /\ str_eqb name (lit "value") = false).
  { repeat (destruct I as [<-|I]; [split; reflexivity|]). destruct I. }
  destruct K as [K1 K2]. simpl fst. simpl snd. simpl app.
  unfold dict_find at 1. rewrite K1, K2. fold dict_find.
  apply (dict_find_filter (fun k => existsb (str_eqb k) context_keys)). exact E.
Qed.

Lemma ascii_lower_upper c : ascii_lower (ascii_upper c) = ascii_lower c.
Proof.
  unfold ascii_lower, ascii_upper, between.
  destruct (N.leb 97 c && N.leb c 122)%bool eqn:L.
  - apply andb_true_iff in L as [L1%N.leb_le L2%N.leb_le].
    replace (N.leb 65 (c - 32) && N.leb (c - 32) 90)%bool with true
      by (symmetry; apply andb_true_iff; split; apply N.leb_le; lia).
    replace (N.leb 65 c && N.leb c 90)%bool with false
      by (symmetry; apply andb_false_iff; right; apply N.leb_gt; lia).
    lia.
  - reflexivity.
Qed.

Lemma ascii_upper_ascii c : is_ascii c -> is_ascii (ascii_upper c).
Proof.
  unfold is_ascii, ascii_upper. destruct (between 97 122 c); lia.
Qed.

(** X12.  The parser is chosen without regard to the case of the ASCII
    letters of the task folder: the folder in capitals is parsed like the
    folder as written. *)
Theorem dispatch_ignores_case (response task_folder : str) (placeholders : dict) :
  Forall is_ascii task_folder ->
  _parse_response_by_task response (map ascii_upper task_folder) placeholders
  = _parse_response_by_task response task_folder placeholders.
Proof.
  intros A. unfold _parse_response_by_task.
  rewrite (lower_ascii task_folder A).
  rewrite lower_ascii.
  - rewrite map_map. rewrite (map_ext _ _ ascii_lower_upper). reflexivity.
  - apply Forall_map. eapply Forall_impl; [|exact A]. exact ascii_upper_ascii.
Qed.

End MoreCleanFacts.

Lemma dispatch_ignores_case_witness :
  _parse_response_by_task (U := ascii_block) weather_response
                          (lit "LEXICON_GENERATING") weather_placeholders
  = _parse_response_by_task (U := ascii_block) weather_response lexicon
                            weather_placeholders.
Proof.
  apply (dispatch_ignores_case (U := ascii_block) weather_response lexicon).
  repeat constructor.
Defined.
